(** * Content aggregation service: embedding and verified properties

    Shallow embedding of the Go service that answers "give me [count]
    content items starting at [offset]" by fanning out to the configured
    providers, with one fallback round and one deadline per request.

    The Go code is concurrent; the embedding keeps what decides the values
    the service returns:
    - a provider fetch is one call of the provider's client; what its
      goroutine puts on the promise channel before closing it is a list;
    - every [select] of the coordinator is counted, and a scheduling oracle
      says at which of them the [ctx.Done()] case is taken;
    - the fetches dispatched so far are logged in the world state. *)

From Stdlib Require Import ZArith Lia Ascii.
From stdpp Require Import base option list gmap strings.

Local Open Scope Z_scope.

(** ** Data model *)

(** Modelled from the spec: the declaration of [Provider] is not part of the
    available sources; it is a string type ([Provider("4")] in the tests). *)
Abbreviation Provider := string (only parsing).

(** Modelled from the spec: the declaration of [ContentConfig] is not part of
    the available sources; [Fallback] is a [*Provider], nil when absent. *)
Record ContentConfig := mkConfig {
  Type_ : Provider;
  Fallback : option Provider
}.

(** Modelled from the spec: the declaration of [ContentItem] is not part of
    the available sources; [Expiry] is a timestamp. *)
Record ContentItem := mkItem {
  ID : string;
  Title : string;
  Source : string;
  Expiry : Z
}.

(** A [*ContentItem]; [None] is the nil pointer. *)
Abbreviation ItemPtr := (option ContentItem) (only parsing).

(** [ctx.Err()] once [ctx.Done()] is closed. *)
Inductive ctxError := DeadlineExceeded | Canceled.

(** The error values that occur. *)
Inductive error :=
  | ErrInvalidParams                 (* "invalid count or offset parameters" *)
  | ErrNoClientProvided (p : Provider) (* "no client provided for provider" *)
  | ErrNotEnoughItems                (* "not enough items" *)
  | ErrCtx (e : ctxError)            (* ctx.Err() *)
  | ErrClient (msg : string).        (* any error returned by a client *)

(** Run-time panics of the Go program. *)
Inductive panic :=
  | PanicNoClient (p : Provider)     (* "no client configured for provider" *)
  | PanicDivideByZero                (* i % 0 *)
  | PanicIndexOutOfRange             (* s[i] with i out of range *)
  | PanicSliceBounds                 (* items[:count] with count > cap(items) *)
  | PanicMakeChan.                   (* make(chan T, n) with n < 0 *)

(** configResponse is a helper type for storing the result of fetching data
    for given config element. *)
Record configResponse := mkResp {
  item : ItemPtr;
  err : option error
}.

(** A promise: what the fetch goroutine sends on its channel, in order,
    before closing it. *)
Abbreviation chan := (list configResponse) (only parsing).

(** A Go slice of item pointers: the [elems] it shows ([len] of them) and the
    rest of its backing array ([cap - len] more), which a reslice can reach. *)
Record slice := mkSlice {
  elems : list ItemPtr;
  spare : list ItemPtr
}.

Definition slice_len (s : slice) : Z := Z.of_nat (length (elems s)).
Definition slice_cap (s : slice) : Z :=
  Z.of_nat (length (elems s) + length (spare s)).

(** [s[:n]]: legal for [0 <= n <= cap(s)], also beyond [len(s)]. *)
Definition reslice (s : slice) (n : Z) : option (list ItemPtr) :=
  if bool_decide (0 ≤ n ≤ slice_cap s)
  then Some (take (Z.to_nat n) (elems s ++ spare s))
  else None.

(** Modelled from the spec: the [Client] interface is not part of the
    available sources: [GetContent(userIP, count) ([]*ContentItem, error)].
    A client may be stateful; the first argument is the number of fetches
    this client has served before in the request. *)
Abbreviation Client := (nat → string → Z → slice * option error)
  (only parsing).

(** Service is the main application service object. *)
Record Service := mkService {
  clients : gmap Provider Client;
  contentConfigs : list ContentConfig;
  timeout : Z
}.

(** Go's [int], taken as 64 bits wide: addition wraps around. *)
Definition int_min : Z := - 2 ^ 63.
Definition int_max : Z := 2 ^ 63 - 1.
Definition int_wrap (z : Z) : Z := (z + 2 ^ 63) `mod` 2 ^ 64 - 2 ^ 63.
Definition int_add (a b : Z) : Z := int_wrap (a + b).

(** ** The world of one request, and the monad that threads it *)

Record World := mkWorld {
  calls : list (Provider * Z);   (* fetches dispatched: provider and count *)
  waits : nat                    (* selects executed by the coordinator *)
}.

Definition world0 : World := mkWorld [] 0.

Inductive outcome (A : Type) :=
  | Done (a : A)
  | Panicked (p : panic).
Arguments Done {A} a.
Arguments Panicked {A} p.

Definition M (A : Type) : Type := World → outcome A * World.

Definition ret {A} (a : A) : M A := λ w, (Done a, w).
Definition bind {A B} (m : M A) (f : A → M B) : M B :=
  λ w, match m w with
       | (Done a, w') => f a w'
       | (Panicked p, w') => (Panicked p, w')
       end.
Definition lift {A} (o : outcome A) : M A := λ w, (o, w).

Notation "'do' x <- m ; k" := (bind m (λ x, k))
  (at level 10, x name, m at level 100, k at level 200, only parsing).
Notation "'do' ' p <- m ; k" := (bind m (λ x, match x with p => k end))
  (at level 10, p pattern, m at level 100, k at level 200, only parsing).

(** ** Construction *)

(** The loop of [NewService]: the first config whose [Type] has no client. *)
Fixpoint checkClients (clients : gmap Provider Client)
    (configs : list ContentConfig) : option error :=
  match configs with
  | [] => None
  | cfg :: rest =>
      match clients !! Type_ cfg with
      | None => Some (ErrNoClientProvided (Type_ cfg))
      | Some _ => checkClients clients rest
      end
  end.

(** NewService returns a service configured with the given configs and
    clients. *)
Definition NewService (configs : list ContentConfig)
    (clients : gmap Provider Client) (timeout : Z)
    : option Service * option error :=
  match checkClients clients configs with
  | Some e => (None, Some e)
  | None => (Some (mkService clients configs timeout), None)
  end.

(** ** Serving a request *)

Section Request.

Variable s : Service.
(** The case [<-ctx.Done()] is taken at the [k]-th select of the request
    exactly when [ctxDone k] is [Some e]; [e] is then [ctx.Err()]. *)
Variable ctxDone : nat → option ctxError.
Variable userIP : string.

(** prepareConfigsForRequest returns a list of configs that configure each
    item that is used for generating response. The loop body, for the
    indices [idxs] still to come. *)
Fixpoint prepareLoop (idxs : list nat) (configs : list ContentConfig)
    : outcome (list ContentConfig) :=
  match idxs with
  | [] => Done configs
  | i :: rest =>
      if decide (length (contentConfigs s) = 0%nat)
      then Panicked PanicDivideByZero
      else match contentConfigs s !! (i mod length (contentConfigs s))%nat with
           | None => Panicked PanicIndexOutOfRange
           | Some cfg => prepareLoop rest (configs ++ [cfg])
           end
  end.

Definition prepareConfigsForRequest (count offset : Z)
    : outcome (list ContentConfig) :=
  prepareLoop (seq 0 (Z.to_nat (int_add count offset))) [].

(** [m[p]++] on a Go map: a missing key reads as zero. The tallies below
    count slots of a slice, so the increment cannot wrap. *)
Definition incr (m : gmap Provider Z) (p : Provider) : gmap Provider Z :=
  <[p := default 0 (m !! p) + 1]> m.

(** Check how many items do we need from each provider. *)
Definition primaryCounts (requestConfigs : list ContentConfig)
    : gmap Provider Z :=
  foldl (λ m cfg, incr m (Type_ cfg)) ∅ requestConfigs.

(** getPromiseForProvider returns a "promise" with response data for given
    config and count. A panic of the fetch goroutine ends the process; it
    is reported as the outcome of the dispatch. *)
Definition getPromiseForProvider (p : Provider) (count : Z) : M chan :=
  λ w,
    match clients s !! p with
    | None => (Panicked (PanicNoClient p), w)
    | Some client =>
        if bool_decide (count < 0) then (Panicked PanicMakeChan, w) else
        let served := length (filter (λ c, c.1 = p) (calls w)) in
        let w' := mkWorld (calls w ++ [(p, count)]) (waits w) in
        match client served userIP count with
        | (_, Some e) => (Done [mkResp None (Some e)], w')
        | (items, None) =>
            match reslice items count with
            | None => (Panicked PanicSliceBounds, w')
            | Some items' => (Done (map (λ it, mkResp it None) items'), w')
            end
        end
    end.

(** Collect response promises from each provider: the loop over the
    entries of a count map. Go ranges over a map in no specified order;
    [map_to_list] fixes one. *)
Fixpoint dispatch (entries : list (Provider * Z))
    (responsePromises : gmap Provider chan) : M (gmap Provider chan) :=
  match entries with
  | [] => ret responsePromises
  | (provider, count) :: rest =>
      do c <- getPromiseForProvider provider count;
      dispatch rest (<[provider := c]> responsePromises)
  end.

(** One [select] between [ctx.Done()] and a receive from the promise of
    [p]: [inl e] when the context case is taken, else the response for the
    slot and the promises after the receive. A closed channel yields the
    "not enough items" response. A provider without a promise reads a nil
    channel, which never delivers: only the context case can fire. *)
Definition await (responsePromises : gmap Provider chan) (p : Provider)
    : M (ctxError + configResponse * gmap Provider chan) :=
  λ w,
    let w' := mkWorld (calls w) (S (waits w)) in
    match ctxDone (waits w) with
    | Some e => (Done (inl e), w')
    | None =>
        match responsePromises !! p with
        | None => (Done (inl DeadlineExceeded), w')
        | Some [] =>
            (Done (inr (mkResp None (Some ErrNotEnoughItems),
                        responsePromises)), w')
        | Some (v :: q) => (Done (inr (v, <[p := q]> responsePromises)), w')
        end
    end.

(** The rest of a loop ended by [return nil, ctx.Err()] ([inl e]), or ran to
    its end with the remaining responses, to which the one at hand is
    prepended. *)
Definition withResponse (v : configResponse)
    (r : ctxError + list configResponse) : ctxError + list configResponse :=
  match r with
  | inl e => inl e
  | inr responses => inr (v :: responses)
  end.

(** First pass: fetch data from providers without any fallbacks. *)
Fixpoint firstPass (requestConfigs : list ContentConfig)
    (responsePromises : gmap Provider chan)
    : M (ctxError + list configResponse) :=
  match requestConfigs with
  | [] => ret (inr [])
  | cfg :: rest =>
      do x <- await responsePromises (Type_ cfg);
      match x with
      | inl e => ret (inl e)
      | inr (v, responsePromises') =>
          do r <- firstPass rest responsePromises';
          ret (withResponse v r)
      end
  end.

(** Second pass, the tally: for each error in the responses try to use a
    fallback provider. [slots] pairs [requestConfigs[i]] with
    [responses[i]]. *)
Fixpoint fallbackCounts (slots : list (ContentConfig * configResponse))
    (m : gmap Provider Z) : gmap Provider Z :=
  match slots with
  | [] => m
  | (cfg, r) :: rest =>
      match err r with
      | None => fallbackCounts rest m
      | Some _ =>
          match Fallback cfg with
          | None => m
          | Some f => fallbackCounts rest (incr m f)
          end
      end
  end.

(** Fill the requestConfigs with fallback responses. *)
Fixpoint secondPass (slots : list (ContentConfig * configResponse))
    (responsePromises : gmap Provider chan)
    : M (ctxError + list configResponse) :=
  match slots with
  | [] => ret (inr [])
  | (cfg, r) :: rest =>
      match err r with
      | None =>
          do rs <- secondPass rest responsePromises;
          ret (withResponse r rs)
      | Some _ =>
          match Fallback cfg with
          | None => ret (inr (r :: rest.*2))
          | Some provider =>
              do x <- await responsePromises provider;
              match x with
              | inl e => ret (inl e)
              | inr (v, responsePromises') =>
                  do rs <- secondPass rest responsePromises';
                  ret (withResponse v rs)
              end
          end
      end
  end.

Definition getConfigResponses (count offset : Z)
    : M (list configResponse * option error) :=
  do requestConfigs <- lift (prepareConfigsForRequest count offset);
  let providerCounts := primaryCounts requestConfigs in
  do responsePromises <- dispatch (map_to_list providerCounts) ∅;
  do r1 <- firstPass requestConfigs responsePromises;
  match r1 with
  | inl e => ret ([], Some (ErrCtx e))
  | inr responses =>
      let fallbackProviderCounts :=
        fallbackCounts (zip requestConfigs responses) ∅ in
      if decide (size fallbackProviderCounts ≠ 0%nat) then
        do responsePromises <- dispatch (map_to_list fallbackProviderCounts) ∅;
        do r2 <- secondPass (zip requestConfigs responses) responsePromises;
        match r2 with
        | inl e => ret ([], Some (ErrCtx e))
        | inr responses' => ret (responses', None)
        end
      else ret (responses, None)
  end.

(** The collecting loop of [GetContent]: stop at the first response that
    carries an error. *)
Fixpoint collectItems (responses : list configResponse)
    (items : list ItemPtr) : list ItemPtr :=
  match responses with
  | [] => items
  | v :: rest =>
      match err v with
      | Some _ => items
      | None => collectItems rest (items ++ [item v])
      end
  end.

(** GetContent returns [count] number of content items, fetched from the
    configured providers. A nil slice is the empty list. *)
Definition GetContent (count offset : Z) : M (list ItemPtr * option error) :=
  if bool_decide (count ≤ 0) || bool_decide (offset < 0)
  then ret ([], Some ErrInvalidParams)
  else
    do '(responses, e) <- getConfigResponses count offset;
    match e with
    | Some e => ret ([], Some e)
    | None =>
        let items := collectItems responses [] in
        if bool_decide (Z.of_nat (length items) ≤ offset)
        then ret ([], None)
        else ret (drop (Z.to_nat offset) items, None)
    end.

End Request.

(** ** Vocabulary of the properties *)

(** The never-firing schedule: every select receives from its channel. *)
Definition neverDone : nat → option ctxError := λ _, None.

(** Slots of [cfgs] whose primary provider is [p]. *)
Definition demand (p : Provider) (cfgs : list ContentConfig) : nat :=
  length (filter (λ cfg, Type_ cfg = p) cfgs).

(** A failed slot without a fallback. *)
Definition deadEnd (x : ContentConfig * configResponse) : Prop :=
  is_Some (err x.2) ∧ Fallback x.1 = None.

(** A failed slot whose fallback is [f]. *)
Definition wantsFallback (f : Provider)
    (x : ContentConfig * configResponse) : Prop :=
  is_Some (err x.2) ∧ Fallback x.1 = Some f.

(** Failed slots with fallback [f] among [slots]. *)
Definition fallbackDemand (f : Provider)
    (slots : list (ContentConfig * configResponse)) : nat :=
  length (filter (wantsFallback f) slots).

(** [k] is where the scan of the fallback pass stops: the position of the
    first failed slot without a fallback, or the end of the slots. *)
Definition scanStopsAt (slots : list (ContentConfig * configResponse))
    (k : nat) : Prop :=
  (∀ j x, (j < k)%nat → slots !! j = Some x → ¬ deadEnd x) ∧
  (k = length slots ∨ ∃ x, slots !! k = Some x ∧ deadEnd x).

(** What the [j]-th receive from a promise yields: its [j]-th response, or
    the "not enough items" response once the channel is closed. *)
Definition recvAt (q : chan) (j : nat) : configResponse :=
  default (mkResp None (Some ErrNotEnoughItems)) (q !! j).

(** A count map holds [n] for [p] when [n] is positive, nothing otherwise. *)
Definition tallied (m : gmap Provider Z) (p : Provider) (n : nat) : Prop :=
  m !! p = if decide (n = 0%nat) then None else Some (Z.of_nat n).

(** The promise of [p], the empty one when there is none. *)
Definition promiseOf (responsePromises : gmap Provider chan) (p : Provider)
    : chan :=
  default [] (responsePromises !! p).

(** A response that carries an item produced by [p]. *)
Definition itemFrom (p : Provider) (r : configResponse) : Prop :=
  err r = None ∧ ∃ it, item r = Some it ∧ Source it = p.

(** A healthy client of provider [p]: every fetch succeeds and delivers at
    least the demanded number of items, each tagged with [p]. *)
Definition healthy (p : Provider) (c : Client) : Prop :=
  ∀ served ip n, 0 ≤ n →
    (c served ip n).2 = None ∧
    n ≤ slice_len (c served ip n).1 ∧
    Forall (λ it, ∃ x, it = Some x ∧ Source x = p)
           (take (Z.to_nat n) (elems (c served ip n).1)).

(** A service whose configs are not empty and name only providers that have
    a healthy client. *)
Definition allHealthy (s : Service) : Prop :=
  contentConfigs s ≠ [] ∧
  ∀ cfg, cfg ∈ contentConfigs s →
    ∃ c, clients s !! Type_ cfg = Some c ∧ healthy (Type_ cfg) c.

(** The request is answered with exactly [count] items, the [i]-th of them
    produced by the provider of config [(offset + i) mod len(configs)]. *)
Definition servesWindow (s : Service) (userIP : string) (count offset : Z)
    (w : World) : Prop :=
  ∃ items w',
    GetContent s neverDone userIP count offset w = (Done (items, None), w') ∧
    length items = Z.to_nat count ∧
    ∀ i, (i < Z.to_nat count)%nat →
      ∃ it cfg,
        items !! i = Some (Some it) ∧
        contentConfigs s
          !! ((Z.to_nat offset + i) mod length (contentConfigs s))%nat
        = Some cfg ∧
        Source it = Type_ cfg.

(** Fetches dispatched to [p] in a call log. *)
Definition fetches (p : Provider) (log : list (Provider * Z)) : nat :=
  length (filter (λ c, c.1 = p) log).

(** The slots with their outcomes, and the world, when the primary round of
    a request ends with every slot received: no panic, no context case
    taken. *)
Definition primaryRound (s : Service) (ctxDone : nat → option ctxError)
    (userIP : string) (count offset : Z)
    : option (list (ContentConfig * configResponse) * World) :=
  match prepareConfigsForRequest s count offset with
  | Done requestConfigs =>
      match dispatch s userIP
              (map_to_list (primaryCounts requestConfigs)) ∅ world0 with
      | (Done responsePromises, w) =>
          match firstPass ctxDone requestConfigs responsePromises w with
          | (Done (inr responses), w') =>
              Some (zip requestConfigs responses, w')
          | _ => None
          end
      | _ => None
      end
  | Panicked _ => None
  end.

(** No select numbered from [a] up to, and excluding, [b] takes the context
    case. *)
Definition quiet (ctxDone : nat → option ctxError) (a b : nat) : Prop :=
  ∀ k, (a ≤ k < b)%nat → ctxDone k = None.

(** The selects numbered from [a] to [b - 1] were executed, and the last of
    them ended the wait with [e]: the context case was taken there, or it
    read a channel that is nil and waited for the deadline. *)
Definition firedLast (ctxDone : nat → option ctxError) (a b : nat)
    (e : ctxError) : Prop :=
  (a < b)%nat ∧ quiet ctxDone a (b - 1) ∧
  (ctxDone (b - 1)%nat = Some e ∨
   ctxDone (b - 1)%nat = None ∧ e = DeadlineExceeded).

(** ** Test doubles and scenarios *)

(** A schedule under which the select numbered [n] takes the context case
    because the deadline has passed. *)
Definition deadlineAt (n : nat) : nat → option ctxError :=
  λ k, if decide (k = n) then Some DeadlineExceeded else None.

(** The mock provider of the test suite: it fails, or returns [count] items
    tagged with its source. The ids are random and the expiry is the clock
    in the source; [rnd] and [now] stand for them. *)
Record mockContentProvider := mkMock {
  source : Provider;
  shouldFail : bool
}.

Definition mockGetContent (rnd : nat → string) (now : Z)
    (cp : mockContentProvider) : Client :=
  λ _ _ count,
    if shouldFail cp then (mkSlice [] [], Some (ErrClient "test error"))
    else (mkSlice (map (λ i, Some (mkItem (rnd i) "test title" (source cp) now))
                       (seq 0 (Z.to_nat count))) [], None).

(** The registry and configs of [TestProviderErrors]. *)
Definition errorClients (rnd : nat → string) (now : Z)
    : gmap Provider Client :=
  <["1" := mockGetContent rnd now (mkMock "1" true)]>
  (<["2" := mockGetContent rnd now (mkMock "2" false)]>
  (<["3" := mockGetContent rnd now (mkMock "3" false)]>
  (<["4" := mockGetContent rnd now (mkMock "4" true)]>
  (<["5" := mockGetContent rnd now (mkMock "5" false)]> ∅)))).

Definition errorConfigs : list ContentConfig :=
  [ mkConfig "1" (Some "3"); mkConfig "2" None;
    mkConfig "4" None; mkConfig "5" None ].

Definition errorService (rnd : nat → string) (now : Z) : Service :=
  mkService (errorClients rnd now) errorConfigs 5.

(** The fetches that ten items from offset 0 cost in that scenario. *)
Definition errorLog : list (Provider * Z) :=
  [("5", 2); ("1", 3); ("2", 3); ("4", 2); ("3", 1)].

(** The sources of a list of items; a nil item has none. *)
Definition sources (items : list ItemPtr) : list (option string) :=
  map (fmap Source) items.

(** A client that reports success but hands back an empty slice. *)
Definition emptyHanded : Client := λ _ _ _, (mkSlice [] [], None).

(** A client that reports success with a short slice over a larger array. *)
Definition shortOfOne : Client := λ _ _ _, (mkSlice [] [None], None).

(** A service whose only config falls back on a provider without client. *)
Definition orphanFallback (rnd : nat → string) (now : Z) : Service :=
  mkService (<["1" := mockGetContent rnd now (mkMock "1" true)]> ∅)
            [mkConfig "1" (Some "3")] 5.

(** A service over one healthy provider. *)
Definition soloService (rnd : nat → string) (now : Z) : Service :=
  mkService (<["1" := mockGetContent rnd now (mkMock "1" false)]> ∅)
            [mkConfig "1" None] 5.

(** ** The HTTP handler *)

Module HTTP.

(** What the handler reads of an [*http.Request]: the method, [URL.Path],
    the parsed query [URL.Query()] and the peer address. *)
Record Request := mkRequest {
  Method : string;
  Path : string;
  Query : gmap string (list string);
  RemoteAddr : string
}.

(** [url.Values.Get]: the first value of the key, the empty string when the
    key has none. *)
Definition Get (vs : gmap string (list string)) (key : string) : string :=
  match vs !! key with
  | Some (v :: _) => v
  | _ => ""
  end.

(** What the handler writes: the text given to [http.Error], or the items
    given to the JSON encoder. *)
Inductive body :=
  | Text (msg : string)
  | Json (items : list ItemPtr).

Record Response := mkResponse {
  status : Z;
  payload : body
}.

Definition StatusOK : Z := 200.
Definition StatusBadRequest : Z := 400.
Definition StatusNotFound : Z := 404.
Definition StatusInternalServerError : Z := 500.
Definition MethodGet : string := "GET".

(** Handler can handle apps HTTP requests. *)
Record Handler := mkHandler {
  service : Service
}.

(** [strings.Split(v, ":")[0]]: the text before the first colon. *)
Fixpoint beforeColon (v : string) : string :=
  match v with
  | EmptyString => EmptyString
  | String c rest =>
      if Ascii.eqb c ":"%char then EmptyString else String c (beforeColon rest)
  end.

Definition getIP (req : Request) : string := beforeColon (RemoteAddr req).

Section Handling.

(** [strconv.ParseInt(s, 10, 64)] of the Go library, [None] when it returns
    an error. *)
Variable ParseInt : string → option Z.
(** The context of the request and the timing, as for the service. *)
Variable ctxDone : nat → option ctxError.

Definition getIntParam (name : string) (required allowZero : bool)
    (req : Request) : Z * option string :=
  let s := Get (Query req) name in
  if decide (s = "") then
    if required then (0, Some "is empty") else (0, None)
  else
    match ParseInt s with
    | None => (0, Some "must be an integer")
    | Some v =>
        if bool_decide (v ≤ 0) && negb allowZero
        then (0, Some "must be positive or zero")
        else if bool_decide (v < 0) then (0, Some "must be positive")
        else (v, None)
    end.

Definition validateContentReq (req : Request) : Z * Z * option string :=
  match getIntParam "count" true false req with
  | (_, Some e) => (0, 0, Some ("invalid count parameter: " ++ e)%string)
  | (count, None) =>
      match getIntParam "offset" false true req with
      | (_, Some e) => (0, 0, Some ("invalid offset parameter: " ++ e)%string)
      | (offset, None) => (count, offset, None)
      end
  end.

(** We don't want to uncover error details to the client. *)
Definition handleServerErr : Response :=
  mkResponse StatusInternalServerError (Text "internal server error").

(** GetContent returns a list of content items for the [count] and [offset]
    query parameters. *)
Definition GetContent (h : Handler) (req : Request) : M Response :=
  match validateContentReq req with
  | (_, _, Some e) => ret (mkResponse StatusBadRequest (Text e))
  | (count, offset, None) =>
      do x <- GetContent (service h) ctxDone (getIP req) count offset;
      match x.2 with
      | Some _ => ret handleServerErr
      | None => ret (mkResponse StatusOK (Json x.1))
      end
  end.

(** ServeHTTP is the main handler. It knows how to handle "GET /" requests,
    and returns 404 for the rest. *)
Definition ServeHTTP (h : Handler) (req : Request) : M Response :=
  if decide (Method req ≠ MethodGet ∨ Path req ≠ "/")
  then ret (mkResponse StatusNotFound (Text "Not found"))
  else GetContent h req.

End Handling.

End HTTP.

(** A decimal reader in the manner of [strconv.ParseInt(s, 10, 64)]: an
    optional sign, then digits, the value within 64 bits. *)
Definition digitOf (c : Ascii.ascii) : option Z :=
  let n := Z.of_N (Ascii.N_of_ascii c) in
  if bool_decide (48 ≤ n ≤ 57) then Some (n - 48) else None.

Fixpoint readDigits (s : string) (acc : Z) : option Z :=
  match s with
  | EmptyString => Some acc
  | String c rest =>
      match digitOf c with
      | None => None
      | Some d => readDigits rest (10 * acc + d)
      end
  end.

Definition readInt64 (s : string) : option Z :=
  let '(neg, digits) :=
    match s with
    | String "+"%char rest => (false, rest)
    | String "-"%char rest => (true, rest)
    | _ => (false, s)
    end in
  match digits with
  | EmptyString => None
  | _ =>
      match readDigits digits 0 with
      | None => None
      | Some un =>
          let n := if neg : bool then - un else un in
          if bool_decide (int_min ≤ n ≤ int_max) then Some n else None
      end
  end.

(** A request for [GET /] with the given query values. *)
Definition getRoot (query : gmap string (list string)) : HTTP.Request :=
  HTTP.mkRequest "GET" "/" query "10.0.0.1:4711".

(** The query [count=3&offset=1], and a handler over the service of
    [TestProviderErrors]. *)
Definition sampleQuery : gmap string (list string) :=
  <["count" := ["3"]]> (<["offset" := ["1"]]> ∅).

Definition sampleHandler : HTTP.Handler :=
  HTTP.mkHandler (errorService (λ _, "id") 0).

(** * Properties *)

(** ** The monad *)

#[local] Set Warnings "-clear-no-such-hyp".

Lemma bind_done {A B} (m : M A) (f : A → M B) w a w' :
  m w = (Done a, w') → bind m f w = f a w'.
Proof. unfold bind. by intros ->. Qed.

Lemma bind_panicked {A B} (m : M A) (f : A → M B) w p w' :
  m w = (Panicked p, w') → bind m f w = (Panicked p, w').
Proof. unfold bind. by intros ->. Qed.

Lemma bind_inv {A B} (m : M A) (f : A → M B) w o w' :
  bind m f w = (o, w') →
  (∃ p, m w = (Panicked p, w') ∧ o = Panicked p) ∨
  (∃ a w1, m w = (Done a, w1) ∧ f a w1 = (o, w')).
Proof.
  unfold bind. destruct (m w) as [[a|p] w1]; intros H.
  - right. eauto.
  - left. exists p. by inversion H.
Qed.

(** ** Schedules *)

Section Traces.

Variable s : Service.
Variable ctxDone : nat → option ctxError.
Variable userIP : string.

Lemma quiet_refl a : quiet ctxDone a a.
Proof. intros k Hk. lia. Qed.

Lemma quiet_trans a b c :
  quiet ctxDone a b → quiet ctxDone b c → quiet ctxDone a c.
Proof.
  intros Hab Hbc k Hk. destruct (decide (k < b)%nat).
  - apply Hab. lia.
  - apply Hbc. lia.
Qed.

Lemma quiet_step a : ctxDone a = None → quiet ctxDone a (S a).
Proof. intros Ha k Hk. by replace k with a by lia. Qed.

Lemma quiet_firedLast a b c e :
  (a ≤ b)%nat → quiet ctxDone a b → firedLast ctxDone b c e →
  firedLast ctxDone a c e.
Proof.
  intros Hle Hab (Hlt & Hq & Hlast). split; [lia|]. split; [|done].
  apply quiet_trans with b; [done|]. exact Hq.
Qed.

(** *** The loops leave a trace in the world *)

Lemma getPromiseForProvider_log p count w o w' :
  getPromiseForProvider s userIP p count w = (o, w') →
  waits w' = waits w ∧
  (calls w' = calls w ∨ calls w' = calls w ++ [(p, count)]) ∧
  (∀ c, o = Done c → calls w' = calls w ++ [(p, count)]).
Proof.
  unfold getPromiseForProvider. intros H.
  repeat case_match; simplify_eq; simpl; naive_solver.
Qed.

Lemma dispatch_log entries acc w o w' :
  dispatch s userIP entries acc w = (o, w') →
  waits w' = waits w ∧
  ∃ pre, pre `prefix_of` entries ∧ calls w' = calls w ++ pre ∧
         (∀ pr, o = Done pr → pre = entries).
Proof.
  revert acc w. induction entries as [|[p n] rest IH]; intros acc w H; simpl in H.
  - unfold ret in H. simplify_eq. split; [done|]. exists []. 
    rewrite app_nil_r. done.
  - apply bind_inv in H as [(pn & H & ->)|(c & w1 & H & Hrest)].
    + apply getPromiseForProvider_log in H as (Hw & [Hc|Hc] & _).
      * split; [done|]. exists []. rewrite app_nil_r.
        split; [apply prefix_nil|]. done.
      * split; [done|]. exists [(p, n)].
        split; [|done]. by apply prefix_cons, prefix_nil.
    + apply getPromiseForProvider_log in H as (Hw & _ & Hc).
      specialize (Hc c eq_refl).
      apply IH in Hrest as (Hw' & pre & Hpre & Hcalls & Hall).
      split; [congruence|]. exists ((p, n) :: pre).
      split; [by apply prefix_cons|]. rewrite Hcalls, Hc, <- app_assoc.
      split; [done|]. intros pr ->. f_equal. by eapply Hall.
Qed.

Lemma await_inv pr p w o w' :
  await ctxDone pr p w = (o, w') →
  calls w' = calls w ∧ waits w' = S (waits w) ∧
  ((∃ e, o = Done (inl e) ∧
         (ctxDone (waits w) = Some e ∨
          ctxDone (waits w) = None ∧ pr !! p = None ∧ e = DeadlineExceeded)) ∨
   (ctxDone (waits w) = None ∧
    ∃ q, pr !! p = Some q ∧ o = Done (inr (recvAt q 0, <[p := tail q]> pr)))).
Proof.
  unfold await. intros H.
  destruct (ctxDone (waits w)) as [e|] eqn:He.
  { simplify_eq. simpl. naive_solver. }
  destruct (pr !! p) as [[|v q]|] eqn:Hp; simplify_eq; simpl.
  - do 2 (split; [done|]). right. split; [done|]. exists [].
    split; [done|]. simpl. by rewrite insert_id.
  - do 2 (split; [done|]). right. split; [done|]. by exists (v :: q).
  - naive_solver.
Qed.

Lemma await_fired pr p w e w' :
  await ctxDone pr p w = (Done (inl e), w') →
  firedLast ctxDone (waits w) (waits w') e.
Proof.
  intros H. apply await_inv in H as (_ & Hw & [(e' & ? & Hcase)|(_ & q & _ & ?)]);
    simplify_eq.
  rewrite Hw. split; [lia|]. replace (S (waits w) - 1)%nat with (waits w) by lia.
  split; [apply quiet_refl|]. naive_solver.
Qed.

Lemma firstPass_trace cfgs pr w o w' :
  firstPass ctxDone cfgs pr w = (o, w') →
  calls w' = calls w ∧ (waits w ≤ waits w')%nat ∧
  match o with
  | Done (inr responses) =>
      quiet ctxDone (waits w) (waits w') ∧ length responses = length cfgs
  | Done (inl e) => firedLast ctxDone (waits w) (waits w') e
  | Panicked _ => False
  end.
Proof.
  revert pr w o w'. induction cfgs as [|cfg rest IH]; intros pr w o w' H; simpl in H.
  - unfold ret in H. simplify_eq. simpl. eauto using quiet_refl.
  - apply bind_inv in H as [(pn & H & ->)|(x & w1 & H & Hk)].
    { apply await_inv in H. naive_solver. }
    destruct x as [e|[v pr']].
    + unfold ret in Hk. simplify_eq.
      pose proof (await_fired _ _ _ _ _ H) as Hf.
      apply await_inv in H as (Hc & Hw & _).
      split; [done|]. split; [lia|done].
    + apply await_inv in H as (Hc & Hw & [(e & ? & _)|(Hq & _)]); [done|].
      apply bind_inv in Hk as [(pn & Hk & ->)|(r & w2 & Hk & Hret)].
      { apply IH in Hk. naive_solver. }
      apply IH in Hk as (Hc2 & Hw2 & Hr).
      unfold ret in Hret. simplify_eq.
      split; [congruence|]. split; [lia|].
      assert (quiet ctxDone (waits w) (waits w1)) as Hq1.
      { rewrite Hw. by apply quiet_step. }
      destruct r as [e|responses]; simpl.
      * apply quiet_firedLast with (waits w1); [lia|done|done].
      * destruct Hr as [Hr Hlen]. split; [|simpl; lia].
        by apply quiet_trans with (waits w1).
Qed.

Lemma secondPass_trace slots pr w o w' :
  secondPass ctxDone slots pr w = (o, w') →
  calls w' = calls w ∧ (waits w ≤ waits w')%nat ∧
  match o with
  | Done (inr responses) =>
      quiet ctxDone (waits w) (waits w') ∧ length responses = length slots
  | Done (inl e) => firedLast ctxDone (waits w) (waits w') e
  | Panicked _ => False
  end.
Proof.
  revert pr w o w'.
  induction slots as [|[cfg r] rest IH]; intros pr w o w' H; simpl in H.
  - unfold ret in H. simplify_eq. simpl. eauto using quiet_refl.
  - destruct (err r) as [e0|] eqn:Herr.
    + destruct (Fallback cfg) as [f|] eqn:Hfb.
      * apply bind_inv in H as [(pn & H & ->)|(x & w1 & H & Hk)].
        { apply await_inv in H. naive_solver. }
        destruct x as [e|[v pr']].
        -- unfold ret in Hk. simplify_eq.
           pose proof (await_fired _ _ _ _ _ H) as Hf.
           apply await_inv in H as (Hc & Hw & _).
           split; [done|]. split; [lia|done].
        -- apply await_inv in H as (Hc & Hw & [(e & ? & _)|(Hq & _)]); [done|].
           apply bind_inv in Hk as [(pn & Hk & ->)|(rs & w2 & Hk & Hret)].
           { apply IH in Hk. naive_solver. }
           apply IH in Hk as (Hc2 & Hw2 & Hr).
           unfold ret in Hret. simplify_eq.
           split; [congruence|]. split; [lia|].
           assert (quiet ctxDone (waits w) (waits w1)) as Hq1.
           { rewrite Hw. by apply quiet_step. }
           destruct rs as [e|responses]; simpl.
           ++ apply quiet_firedLast with (waits w1); [lia|done|done].
           ++ destruct Hr as [Hr Hlen]. split; [|simpl; lia].
              by apply quiet_trans with (waits w1).
      * unfold ret in H. simplify_eq. simpl.
        split; [done|]. split; [lia|]. split; [apply quiet_refl|].
        by rewrite length_fmap.
    + apply bind_inv in H as [(pn & H & ->)|(rs & w2 & Hk & Hret)].
      { apply IH in H. naive_solver. }
      apply IH in Hk as (Hc2 & Hw2 & Hr).
      unfold ret in Hret. simplify_eq.
      split; [done|]. split; [done|].
      destruct rs as [e|responses]; simpl; [done|].
      destruct Hr as [Hr Hlen]. split; [done|simpl; lia].
Qed.

(** What [getConfigResponses] can return, and the schedule under which it
    does: responses without error when no select took the context case, no
    responses with [ctx.Err()] when the last select took it, a panic only
    out of the preparation or a dispatch. *)
Lemma getConfigResponses_trace count offset w o w' :
  getConfigResponses s ctxDone userIP count offset w = (o, w') →
  (waits w ≤ waits w')%nat ∧
  match o with
  | Done (responses, None) => quiet ctxDone (waits w) (waits w')
  | Done (responses, Some e) =>
      responses = [] ∧
      ∃ ce, e = ErrCtx ce ∧ firedLast ctxDone (waits w) (waits w') ce
  | Panicked _ => quiet ctxDone (waits w) (waits w')
  end.
Proof.
  unfold getConfigResponses. intros H.
  apply bind_inv in H as [(pn & H & ->)|(rc & w0 & H & H1)];
    unfold lift in H; simplify_eq.
  { split; [done|apply quiet_refl]. }
  apply bind_inv in H1 as [(pn & H1 & ->)|(pr & w1 & H1 & H2)];
    apply dispatch_log in H1 as (Hw1 & _).
  { rewrite Hw1. split; [done|apply quiet_refl]. }
  apply bind_inv in H2 as [(pn & H2 & ->)|(r1 & w2 & H2 & H3)];
    apply firstPass_trace in H2 as (_ & Hw2 & Hr1); [done|].
  rewrite <- Hw1.
  destruct r1 as [e|responses].
  { unfold ret in H3. simplify_eq. split; [done|]. split; [done|]. eauto. }
  destruct Hr1 as [Hq1 _].
  case_decide as Hsize; cycle 1.
  { unfold ret in H3. simplify_eq. done. }
  apply bind_inv in H3 as [(pn & H3 & ->)|(pr2 & w3 & H3 & H4)];
    apply dispatch_log in H3 as (Hw3 & _).
  { rewrite Hw3. done. }
  apply bind_inv in H4 as [(pn & H4 & ->)|(r2 & w4 & H4 & H5)];
    apply secondPass_trace in H4 as (_ & Hw4 & Hr2); [done|].
  rewrite Hw3 in *.
  destruct r2 as [e|responses']; unfold ret in H5; simplify_eq.
  - split; [lia|]. split; [done|]. exists e. split; [done|].
    by apply quiet_firedLast with (waits w2).
  - split; [lia|]. destruct Hr2 as [Hq2 _].
    by apply quiet_trans with (waits w2).
Qed.

Lemma GetContent_invalid count offset w :
  count ≤ 0 ∨ offset < 0 →
  GetContent s ctxDone userIP count offset w
  = (Done ([], Some ErrInvalidParams), w).
Proof.
  intros H. unfold GetContent.
  destruct (bool_decide (count ≤ 0)) eqn:Hc; [done|].
  destruct (bool_decide (offset < 0)) eqn:Ho; [done|].
  apply bool_decide_eq_false in Hc, Ho. lia.
Qed.

Lemma GetContent_valid count offset w :
  0 < count → 0 ≤ offset →
  GetContent s ctxDone userIP count offset w
  = bind (getConfigResponses s ctxDone userIP count offset)
      (λ x, match x.2 with
            | Some e => ret ([], Some e)
            | None =>
                let items := collectItems x.1 [] in
                if bool_decide (Z.of_nat (length items) ≤ offset)
                then ret ([], None)
                else ret (drop (Z.to_nat offset) items, None)
            end) w.
Proof.
  intros Hc Ho. unfold GetContent.
  rewrite bool_decide_eq_false_2 by lia.
  rewrite bool_decide_eq_false_2 by lia. simpl.
  unfold bind. destruct (getConfigResponses _ _ _ _ _ _) as [[[? ?]|?] ?]; done.
Qed.

Lemma GetContent_trace count offset w o w' :
  GetContent s ctxDone userIP count offset w = (o, w') →
  (waits w ≤ waits w')%nat ∧
  match o with
  | Done (items, None) => quiet ctxDone (waits w) (waits w')
  | Done (items, Some e) =>
      items = [] ∧
      ((e = ErrInvalidParams ∧ (count ≤ 0 ∨ offset < 0) ∧ w' = w) ∨
       (0 < count ∧ 0 ≤ offset ∧
        ∃ ce, e = ErrCtx ce ∧ firedLast ctxDone (waits w) (waits w') ce))
  | Panicked _ => quiet ctxDone (waits w) (waits w')
  end.
Proof.
  intros H.
  destruct (decide (count ≤ 0 ∨ offset < 0)) as [Hbad|Hok].
  { rewrite GetContent_invalid in H by done. simplify_eq.
    split; [done|]. split; [done|]. by left. }
  rewrite GetContent_valid in H by lia.
  apply bind_inv in H as [(pn & H & ->)|([responses e] & w1 & H & Hk)];
    apply getConfigResponses_trace in H as (Hw & Hr); [done|].
  simpl in Hk. destruct e as [e|].
  - unfold ret in Hk. simplify_eq. split; [done|]. split; [done|].
    right. destruct Hr as (_ & ce & -> & Hf). repeat split; try lia. eauto.
  - case_bool_decide; unfold ret in Hk; simplify_eq; done.
Qed.

End Traces.

(** ** Tallies *)

Section Tallies.

Implicit Types (m : gmap Provider Z) (p q : Provider).

Lemma incr_lookup m p q :
  incr m p !! q
  = if decide (p = q) then Some (default 0 (m !! q) + 1) else m !! q.
Proof.
  unfold incr. case_decide as Hpq.
  - subst. by rewrite lookup_insert_eq.
  - by rewrite lookup_insert_ne.
Qed.

Lemma tallied_incr m (f : Provider → nat) p q :
  tallied m q (f q) →
  tallied (incr m p) q (f q + if decide (p = q) then 1 else 0).
Proof.
  unfold tallied. intros Hm. rewrite incr_lookup, Hm.
  repeat case_decide; simpl; try done; try lia; f_equal; lia.
Qed.

Lemma demand_cons p cfg cfgs :
  demand p (cfg :: cfgs)
  = ((if decide (Type_ cfg = p) then 1 else 0) + demand p cfgs)%nat.
Proof. unfold demand. rewrite filter_cons. by case_decide. Qed.

Lemma demand_app p cfgs cfgs' :
  demand p (cfgs ++ cfgs') = (demand p cfgs + demand p cfgs')%nat.
Proof. unfold demand. by rewrite filter_app, length_app. Qed.

Lemma fallbackDemand_cons f x slots :
  fallbackDemand f (x :: slots)
  = ((if decide (wantsFallback f x) then 1 else 0) + fallbackDemand f slots)%nat.
Proof. unfold fallbackDemand. rewrite filter_cons. by case_decide. Qed.

Lemma primaryCounts_from m (f : Provider → nat) cfgs :
  (∀ p, tallied m p (f p)) →
  ∀ p, tallied (foldl (λ m cfg, incr m (Type_ cfg)) m cfgs) p
               (f p + demand p cfgs).
Proof.
  revert m f. induction cfgs as [|cfg cfgs IH]; intros m f Hm p; simpl.
  - unfold demand. simpl. by rewrite Nat.add_0_r.
  - rewrite demand_cons, Nat.add_assoc.
    pose (f' := λ q : Provider,
            (f q + if decide (Type_ cfg = q) then 1 else 0)%nat).
    apply (IH _ f'). intros q. by apply tallied_incr.
Qed.

(** The primary tally holds, for each provider, the number of slots bound
    to it. *)
Lemma primaryCounts_spec cfgs p : tallied (primaryCounts cfgs) p (demand p cfgs).
Proof.
  apply (primaryCounts_from ∅ (λ _, 0%nat)). intros q. unfold tallied. simpl.
  apply lookup_empty.
Qed.

Lemma scanStopsAt_exists slots : ∃ k, (k ≤ length slots)%nat ∧ scanStopsAt slots k.
Proof.
  induction slots as [|x slots (k & Hk & Hlt & Hend)].
  - exists 0%nat. split; [done|]. split; [intros; lia|by left].
  - destruct (decide (deadEnd x)) as [Hx|Hx].
    + exists 0%nat. split; [simpl; lia|]. split; [intros; lia|].
      right. by exists x.
    + exists (S k). split; [simpl; lia|]. split.
      * intros [|j] y Hj Hy; simpl in Hy; [by simplify_eq|].
        apply (Hlt j); [lia|done].
      * destruct Hend as [->|Hend]; [by left|by right].
Qed.

Lemma scanStopsAt_dead x slots k :
  deadEnd x → scanStopsAt (x :: slots) k → k = 0%nat.
Proof.
  intros Hx [Hlt _]. destruct k as [|k]; [done|].
  exfalso. apply (Hlt 0%nat x); [lia|done|done].
Qed.

Lemma scanStopsAt_alive x slots k :
  ¬ deadEnd x → scanStopsAt (x :: slots) k →
  ∃ k', k = S k' ∧ scanStopsAt slots k'.
Proof.
  intros Hx [Hlt Hend]. destruct k as [|k].
  { destruct Hend as [?|(y & Hy & ?)]; [done|]. simpl in Hy. by simplify_eq. }
  exists k. split; [done|]. split.
  - intros j y Hj Hy. apply (Hlt (S j)); [lia|done].
  - destruct Hend as [Hend|Hend]; [left|by right].
    simpl in Hend. lia.
Qed.

Lemma fallbackCounts_from slots m (f : Provider → nat) k :
  scanStopsAt slots k →
  (∀ p, tallied m p (f p)) →
  ∀ p, tallied (fallbackCounts slots m) p
               (f p + fallbackDemand p (take k slots)).
Proof.
  revert m f k.
  induction slots as [|[cfg r] slots IH]; intros m f k Hk Hm p; simpl.
  - rewrite take_nil. unfold fallbackDemand. simpl. by rewrite Nat.add_0_r.
  - destruct (err r) as [e|] eqn:Herr.
    + destruct (Fallback cfg) as [fb|] eqn:Hfb.
      * apply scanStopsAt_alive in Hk as (k' & -> & Hk').
        2:{ unfold deadEnd. simpl. rewrite Hfb. by intros [_ ?]. }
        simpl. rewrite fallbackDemand_cons, Nat.add_assoc.
        pose (f' := λ q : Provider,
                (f q + if decide (fb = q) then 1 else 0)%nat).
        assert ((if decide (wantsFallback p (cfg, r)) then 1 else 0)%nat
                = (if decide (fb = p) then 1 else 0)%nat) as ->.
        { unfold wantsFallback. simpl. rewrite Herr, Hfb.
          repeat case_decide; naive_solver. }
        apply (IH _ f'); [done|]. intros q. by apply tallied_incr.
      * apply scanStopsAt_dead in Hk as ->.
        2:{ unfold deadEnd. simpl. by rewrite Herr, Hfb. }
        simpl. unfold fallbackDemand. simpl. by rewrite Nat.add_0_r.
    + apply scanStopsAt_alive in Hk as (k' & -> & Hk').
      2:{ unfold deadEnd. simpl. rewrite Herr. by intros [[? ?] _]. }
      simpl. rewrite fallbackDemand_cons.
      rewrite decide_False.
      2:{ unfold wantsFallback. simpl. rewrite Herr. by intros [[? ?] _]. }
      by apply IH.
Qed.

(** The fallback tally holds, for each provider, the number of failed slots
    that fall back on it and precede the stop of the scan. *)
Lemma fallbackCounts_spec slots k p :
  scanStopsAt slots k →
  tallied (fallbackCounts slots ∅) p (fallbackDemand p (take k slots)).
Proof.
  intros Hk. apply (fallbackCounts_from slots ∅ (λ _, 0%nat) k Hk).
  intros q. unfold tallied. simpl. apply lookup_empty.
Qed.

Lemma tallied_entry m p n z :
  tallied m p n → (p, z) ∈ map_to_list m → z = Z.of_nat n ∧ 0 < z.
Proof.
  unfold tallied. intros Hm Hin. apply elem_of_map_to_list in Hin.
  rewrite Hin in Hm. case_decide; simplify_eq. lia.
Qed.

End Tallies.

(** ** The promises and the order in which slots are served *)

Section Rounds.

Variable s : Service.
Variable ctxDone : nat → option ctxError.
Variable userIP : string.

Lemma recvAt_tail (q : chan) j : recvAt (tail q) j = recvAt q (S j).
Proof. by destruct q. Qed.

Lemma promiseOf_received (pr : gmap Provider chan) p0 q p j :
  pr !! p0 = Some q →
  recvAt (promiseOf (<[p0 := tail q]> pr) p) j
  = recvAt (promiseOf pr p) (j + if decide (p0 = p) then 1 else 0).
Proof.
  intros Hq. unfold promiseOf. case_decide as Hp.
  - subst. rewrite lookup_insert_eq, Hq. simpl.
    rewrite recvAt_tail. f_equal. lia.
  - rewrite lookup_insert_ne by done. f_equal. lia.
Qed.

(** Assignment order of the primary round: slot [i] gets the response that
    its provider's promise yields at the receive numbered by the earlier
    slots bound to the same provider. *)
Lemma firstPass_order cfgs pr w responses w' :
  firstPass ctxDone cfgs pr w = (Done (inr responses), w') →
  ∀ i cfg, cfgs !! i = Some cfg →
    responses !! i
    = Some (recvAt (promiseOf pr (Type_ cfg)) (demand (Type_ cfg) (take i cfgs))).
Proof.
  revert pr w responses w'.
  induction cfgs as [|cfg0 rest IH]; intros pr w responses w' H i cfg Hi;
    [done|]. simpl in H.
  apply bind_inv in H as [(pn & _ & ?)|(x & w1 & H & Hk)]; [done|].
  apply await_inv in H as (_ & _ & [(e & ? & _)|(_ & q & Hq & ?)]);
    simplify_eq.
  simpl in Hk.
  apply bind_inv in Hk as [(pn & _ & ?)|(r & w2 & Hk & Hret)]; [done|].
  unfold ret in Hret. destruct r as [e|rs]; simplify_eq. simpl in *.
  destruct i as [|i]; simpl in *.
  - simplify_eq. unfold promiseOf. rewrite Hq. done.
  - rewrite (IH _ _ _ _ Hk i cfg Hi), demand_cons.
    rewrite (promiseOf_received _ _ _ _ _ Hq). do 2 f_equal. lia.
Qed.

(** Assignment order of the fallback round: within the scanned prefix a
    failed slot gets the response that its fallback's promise yields at the
    receive numbered by the earlier failed slots with the same fallback;
    every other slot keeps its response. *)
Lemma secondPass_order slots pr w responses w' k :
  secondPass ctxDone slots pr w = (Done (inr responses), w') →
  scanStopsAt slots k →
  ∀ i x, slots !! i = Some x →
    (err x.2 = None → responses !! i = Some x.2) ∧
    ((k ≤ i)%nat → responses !! i = Some x.2) ∧
    (∀ f, (i < k)%nat → wantsFallback f x →
       responses !! i
       = Some (recvAt (promiseOf pr f) (fallbackDemand f (take i slots)))).
Proof.
  revert pr w responses w' k.
  induction slots as [|[cfg0 r0] rest IH]; intros pr w responses w' k H Hk i x Hi;
    [done|]. simpl in H.
  destruct (err r0) as [e0|] eqn:Herr.
  - destruct (Fallback cfg0) as [f0|] eqn:Hfb.
    + apply scanStopsAt_alive in Hk as (k' & -> & Hk').
      2:{ unfold deadEnd. simpl. rewrite Hfb. by intros [_ ?]. }
      apply bind_inv in H as [(pn & _ & ?)|(y & w1 & H & Hrest)]; [done|].
      apply await_inv in H as (_ & _ & [(e & ? & _)|(_ & q & Hq & ?)]);
        simplify_eq.
      simpl in Hrest.
      apply bind_inv in Hrest as [(pn & _ & ?)|(rs & w2 & Hrest & Hret)];
        [done|].
      unfold ret in Hret. destruct rs as [e|rs]; simplify_eq. simpl in *.
      destruct i as [|i]; simpl in *.
      * simplify_eq. simpl. split; [by rewrite Herr|]. split; [lia|].
        intros f _ [_ Hf]. simpl in Hf. rewrite Hfb in Hf. simplify_eq.
        unfold promiseOf. by rewrite Hq.
      * destruct (IH _ _ _ _ _ Hrest Hk' i x Hi) as (Hok & Hge & Hlt).
        split; [done|]. split; [intros; apply Hge; lia|].
        intros f Hik Hf. rewrite (Hlt f); [|lia|done].
        rewrite fallbackDemand_cons, (promiseOf_received _ _ _ _ _ Hq).
        do 2 f_equal.
        assert ((if decide (wantsFallback f (cfg0, r0)) then 1 else 0)%nat
                = (if decide (f0 = f) then 1 else 0)%nat) as ->; [|lia].
        unfold wantsFallback. simpl. rewrite Herr, Hfb.
        repeat case_decide; naive_solver.
    + apply scanStopsAt_dead in Hk as ->.
      2:{ unfold deadEnd. simpl. by rewrite Herr, Hfb. }
      unfold ret in H. simplify_eq.
      assert ((r0 :: rest.*2) !! i = Some x.2) as Hx.
      { change (r0 :: rest.*2) with (((cfg0, r0) :: rest).*2).
        by rewrite list_lookup_fmap, Hi. }
      split; [done|]. split; [done|]. intros; lia.
  - assert (¬ deadEnd (cfg0, r0)) as Halive.
    { unfold deadEnd. simpl. rewrite Herr. by intros [[? ?] _]. }
    apply scanStopsAt_alive in Hk as (k' & -> & Hk'); [|done].
    apply bind_inv in H as [(pn & _ & ?)|(rs & w2 & Hrest & Hret)]; [done|].
    unfold ret in Hret. destruct rs as [e|rs]; simplify_eq. simpl in *.
    destruct i as [|i]; simpl in *.
    + simplify_eq. simpl. split; [done|]. split; [done|].
      intros f _ [Hf _]. simpl in Hf. rewrite Herr in Hf. by destruct Hf.
    + destruct (IH _ _ _ _ _ Hrest Hk' i x Hi) as (Hok & Hge & Hlt).
      split; [done|]. split; [intros; apply Hge; lia|].
      intros f Hik Hf. rewrite (Hlt f); [|lia|done].
      rewrite fallbackDemand_cons, decide_False; [done|].
      unfold wantsFallback. simpl. rewrite Herr. by intros [[? ?] _].
Qed.

(** With no context case taken and a promise for every provider asked, the
    primary pass receives a response for every slot. *)
Lemma firstPass_quiet cfgs pr w :
  (∀ k, ctxDone k = None) →
  (∀ cfg, cfg ∈ cfgs → is_Some (pr !! Type_ cfg)) →
  ∃ responses w', firstPass ctxDone cfgs pr w = (Done (inr responses), w').
Proof.
  intros Hnever. revert pr w.
  induction cfgs as [|cfg rest IH]; intros pr w Hpr; simpl.
  - unfold ret. eauto.
  - destruct (Hpr cfg) as [q Hq]; [by left|].
    destruct (await ctxDone pr (Type_ cfg) w) as [o w1] eqn:Ha.
    pose proof Ha as Ha'.
    apply await_inv in Ha' as (_ & _ & [(e & -> & [He|(_ & Hnil & _)])|
                                         (_ & q' & Hq' & ->)]).
    { rewrite Hnever in He. done. }
    { rewrite Hq in Hnil. done. }
    rewrite (bind_done _ _ _ _ _ Ha).
    destruct (IH (<[Type_ cfg := tail q']> pr) w1) as (rs & w2 & Hrs).
    { intros cfg' Hin. rewrite lookup_insert_is_Some.
      destruct (decide (Type_ cfg = Type_ cfg')); [by left|right].
      split; [done|]. apply Hpr. by right. }
    rewrite (bind_done _ _ _ _ _ Hrs). unfold ret. simpl. eauto.
Qed.

(** A fetch from a healthy client fills its promise with exactly [n]
    items of the provider. *)
Lemma getPromiseForProvider_healthy p c n w :
  clients s !! p = Some c → healthy p c → 0 ≤ n →
  ∃ q w', getPromiseForProvider s userIP p n w = (Done q, w') ∧
          length q = Z.to_nat n ∧ Forall (itemFrom p) q.
Proof.
  intros Hc Hh Hn. unfold getPromiseForProvider. rewrite Hc.
  rewrite bool_decide_eq_false_2 by lia.
  set (served := length _).
  destruct (Hh served userIP n Hn) as (He & Hlen & Hitems).
  destruct (c served userIP n) as [items e]. simpl in *. subst e.
  unfold reslice, slice_cap, slice_len in *.
  rewrite bool_decide_eq_true_2 by lia.
  eexists _, _. split; [done|].
  rewrite take_app_le by lia. split.
  - rewrite length_map, length_take. lia.
  - apply Forall_fmap. eapply Forall_impl; [exact Hitems|].
    intros it (x & -> & Hx). split; [done|]. by exists x.
Qed.

(** Dispatching to healthy clients yields a promise of [n] items for every
    entry [(p, n)] and leaves the other promises as they were. *)
Lemma dispatch_healthy entries acc w :
  NoDup entries.*1 →
  (∀ p n, (p, n) ∈ entries →
     0 ≤ n ∧ ∃ c, clients s !! p = Some c ∧ healthy p c) →
  ∃ pr w', dispatch s userIP entries acc w = (Done pr, w') ∧
    (∀ p, p ∉ entries.*1 → pr !! p = acc !! p) ∧
    (∀ p n, (p, n) ∈ entries →
       ∃ q, pr !! p = Some q ∧ length q = Z.to_nat n ∧ Forall (itemFrom p) q).
Proof.
  revert acc w. induction entries as [|[p0 n0] rest IH]; intros acc w Hnd Hall.
  - simpl. unfold ret. eexists _, _. split; [done|]. split; [done|].
    intros p n Hin. by apply elem_of_nil in Hin.
  - simpl in *. apply NoDup_cons in Hnd as [Hp0 Hnd].
    destruct (Hall p0 n0) as (Hn0 & c & Hc & Hh); [by left|].
    destruct (getPromiseForProvider_healthy p0 c n0 w Hc Hh Hn0)
      as (q & w1 & Hq & Hlen & Hitems).
    rewrite (bind_done _ _ _ _ _ Hq).
    destruct (IH (<[p0 := q]> acc) w1 Hnd) as (pr & w' & Hd & Hout & Hin).
    { intros p n Hpn. apply Hall. by right. }
    exists pr, w'. split; [done|]. split.
    + intros p Hp. apply not_elem_of_cons in Hp as [Hne Hp].
      rewrite Hout by done. by rewrite lookup_insert_ne.
    + intros p n Hpn. apply elem_of_cons in Hpn as [Heq|Hpn].
      * simplify_eq. exists q. rewrite Hout by done.
        by rewrite lookup_insert_eq.
      * by apply Hin.
Qed.

(** The preparation repeats the configs cyclically. *)
Lemma prepareLoop_spec idxs acc :
  contentConfigs s ≠ [] →
  ∃ l, prepareLoop s idxs acc = Done (acc ++ l) ∧
       length l = length idxs ∧
       ∀ j i, idxs !! j = Some i →
         l !! j = contentConfigs s !! (i mod length (contentConfigs s))%nat.
Proof.
  intros Hne. assert (length (contentConfigs s) ≠ 0%nat) as Hlen.
  { by destruct (contentConfigs s). }
  revert acc. induction idxs as [|i rest IH]; intros acc; simpl.
  - exists []. by rewrite app_nil_r.
  - rewrite decide_False by done.
    destruct (lookup_lt_is_Some_2 (contentConfigs s)
                (i mod length (contentConfigs s))%nat) as [cfg Hcfg].
    { by apply Nat.mod_upper_bound. }
    rewrite Hcfg. destruct (IH (acc ++ [cfg])) as (l & Hl & Hlenl & Hidx).
    exists (cfg :: l). rewrite Hl, <- app_assoc. split; [done|].
    split; [simpl; lia|]. intros [|j] i' Hj; simpl in *.
    + by simplify_eq.
    + by apply Hidx.
Qed.

Lemma prepareConfigsForRequest_spec count offset :
  contentConfigs s ≠ [] →
  ∃ requestConfigs,
    prepareConfigsForRequest s count offset = Done requestConfigs ∧
    length requestConfigs = Z.to_nat (int_add count offset) ∧
    ∀ i, (i < length requestConfigs)%nat →
      requestConfigs !! i
      = contentConfigs s !! (i mod length (contentConfigs s))%nat.
Proof.
  intros Hne. unfold prepareConfigsForRequest.
  destruct (prepareLoop_spec (seq 0 (Z.to_nat (int_add count offset))) [] Hne)
    as (l & Hl & Hlen & Hidx).
  rewrite length_seq in Hlen.
  exists l. split; [done|]. split; [done|].
  intros i Hi. apply Hidx. rewrite lookup_seq_lt by lia. done.
Qed.

Lemma demand_take_lt cfgs i cfg :
  cfgs !! i = Some cfg →
  (demand (Type_ cfg) (take i cfgs) < demand (Type_ cfg) cfgs)%nat.
Proof.
  intros Hi. rewrite <- (take_drop_middle cfgs i cfg Hi) at 2.
  rewrite demand_app, demand_cons, decide_True by done. lia.
Qed.

Lemma demand_pos_elem p cfgs :
  (0 < demand p cfgs)%nat → ∃ cfg, cfg ∈ cfgs ∧ Type_ cfg = p.
Proof.
  unfold demand. destruct (filter _ cfgs) as [|cfg l] eqn:Hf; simpl; [lia|].
  intros _. exists cfg.
  assert (cfg ∈ filter (λ cfg, Type_ cfg = p) cfgs) as Hin.
  { rewrite Hf. by left. }
  by apply list_elem_of_filter in Hin as [? ?].
Qed.

Lemma fallbackCounts_all_ok slots m :
  Forall (λ x, err x.2 = None) slots → fallbackCounts slots m = m.
Proof.
  induction 1 as [|[cfg r] slots Hr _ IH]; simpl in *; [done|].
  by rewrite Hr.
Qed.

Lemma collectItems_all_ok responses items :
  Forall (λ r, err r = None) responses →
  collectItems responses items = items ++ map item responses.
Proof.
  intros H. revert items.
  induction H as [|r rs Hr _ IH]; intros items; simpl.
  - by rewrite app_nil_r.
  - rewrite Hr, IH, <- app_assoc. done.
Qed.

(** The primary round over healthy providers: every slot receives an item
    of its own provider. *)
Lemma primaryRound_healthy requestConfigs w :
  (∀ k, ctxDone k = None) →
  (∀ cfg, cfg ∈ requestConfigs →
     ∃ c, clients s !! Type_ cfg = Some c ∧ healthy (Type_ cfg) c) →
  ∃ pr w1 responses w2,
    dispatch s userIP (map_to_list (primaryCounts requestConfigs)) ∅ w
    = (Done pr, w1) ∧
    firstPass ctxDone requestConfigs pr w1 = (Done (inr responses), w2) ∧
    Forall2 (λ cfg r, itemFrom (Type_ cfg) r) requestConfigs responses.
Proof.
  intros Hnever Hh.
  destruct (dispatch_healthy (map_to_list (primaryCounts requestConfigs)) ∅ w)
    as (pr & w1 & Hd & _ & Hpr).
  { apply NoDup_fst_map_to_list. }
  { intros p n Hpn.
    destruct (tallied_entry _ _ _ _ (primaryCounts_spec requestConfigs p) Hpn)
      as [-> Hpos].
    split; [lia|].
    destruct (demand_pos_elem p requestConfigs) as (cfg & Hin & <-); [lia|].
    by apply Hh. }
  assert (∀ cfg, cfg ∈ requestConfigs →
            ∃ q, pr !! Type_ cfg = Some q ∧
                 length q = demand (Type_ cfg) requestConfigs ∧
                 Forall (itemFrom (Type_ cfg)) q) as Hq.
  { intros cfg Hin. apply list_elem_of_lookup in Hin as [i Hi].
    pose proof (demand_take_lt _ _ _ Hi) as Hlt.
    pose proof (primaryCounts_spec requestConfigs (Type_ cfg)) as Ht.
    unfold tallied in Ht. rewrite decide_False in Ht by lia.
    apply elem_of_map_to_list in Ht.
    destruct (Hpr _ _ Ht) as (q & Hq & Hlen & Hall).
    exists q. split; [done|]. split; [lia|done]. }
  destruct (firstPass_quiet requestConfigs pr w1 Hnever)
    as (responses & w2 & Hf).
  { intros cfg Hin. destruct (Hq cfg Hin) as (q & -> & _). done. }
  exists pr, w1, responses, w2. split; [done|]. split; [done|].
  apply Forall2_same_length_lookup_2.
  { apply firstPass_trace in Hf as (_ & _ & _ & Hlen). done. }
  intros i cfg r Hi Hr.
  rewrite (firstPass_order _ _ _ _ _ Hf i cfg Hi) in Hr. simplify_eq.
  destruct (Hq cfg) as (q & Hpq & Hlen & Hall).
  { apply list_elem_of_lookup. eauto. }
  unfold promiseOf, recvAt. rewrite Hpq. simpl.
  pose proof (demand_take_lt _ _ _ Hi) as Hlt.
  destruct (lookup_lt_is_Some_2 q (demand (Type_ cfg) (take i requestConfigs)))
    as [r Hr]; [lia|].
  rewrite Hr. simpl. eapply Forall_lookup_1; eauto.
Qed.

Lemma int_add_exact a b :
  int_min ≤ a + b ≤ int_max → int_add a b = a + b.
Proof.
  unfold int_add, int_wrap, int_min, int_max. intros H.
  rewrite Z.mod_small; lia.
Qed.

End Rounds.

(** * Main results *)

Lemma getConfigResponses_healthy s userIP count offset w :
  allHealthy s →
  ∃ requestConfigs responses w',
    prepareConfigsForRequest s count offset = Done requestConfigs ∧
    getConfigResponses s neverDone userIP count offset w
    = (Done (responses, None), w') ∧
    Forall2 (λ cfg r, itemFrom (Type_ cfg) r) requestConfigs responses.
Proof.
  intros [Hne Hh].
  destruct (prepareConfigsForRequest_spec s count offset Hne)
    as (rc & Hrc & Hlen & Hidx).
  destruct (primaryRound_healthy s neverDone userIP rc w)
    as (pr & w1 & responses & w2 & Hd & Hf & Hall); [done| |].
  { intros cfg Hin. apply Hh. apply list_elem_of_lookup in Hin as [i Hi].
    pose proof (lookup_lt_Some _ _ _ Hi) as Hlt.
    rewrite Hidx in Hi by done. apply list_elem_of_lookup. eauto. }
  exists rc, responses, w2. split; [done|]. split; [|done].
  unfold getConfigResponses.
  rewrite (bind_done _ _ w rc w) by (unfold lift; by rewrite Hrc).
  rewrite (bind_done _ _ _ _ _ Hd), (bind_done _ _ _ _ _ Hf).
  rewrite fallbackCounts_all_ok.
  - rewrite decide_False; [done|]. rewrite map_size_empty. lia.
  - clear -Hall. induction Hall as [|cfg r rc rs [Hr _] _ IH]; simpl; [done|].
    constructor; done.
Qed.

(** C1 (amended): for every count > 0 and offset >= 0 whose sum is a Go
    [int], over configs that are not empty and name healthy providers, and
    with no select taking the context case, GetContent returns exactly
    [count] items and the [i]-th has the Source of config
    [(offset + i) mod len(configs)]. *)
Theorem C1_healthy_window s userIP count offset w :
  allHealthy s → 0 < count → 0 ≤ offset → count + offset ≤ int_max →
  servesWindow s userIP count offset w.
Proof.
  intros Hs Hc Ho Hmax.
  destruct (getConfigResponses_healthy s userIP count offset w Hs)
    as (rc & responses & w' & Hrc & Hg & Hall).
  destruct Hs as [Hne Hh].
  destruct (prepareConfigsForRequest_spec s count offset Hne)
    as (rc' & Hrc' & Hlen & Hidx).
  rewrite Hrc in Hrc'. simplify_eq.
  rewrite int_add_exact in Hlen by (unfold int_min; lia).
  pose proof (Forall2_length _ _ _ Hall) as Hlen'.
  assert (Forall (λ r, err r = None) responses) as Hok.
  { clear -Hall. induction Hall as [|cfg r rc rs [Hr _] _ IH]; constructor; done. }
  unfold servesWindow. rewrite GetContent_valid by done.
  rewrite (bind_done _ _ _ _ _ Hg). simpl.
  rewrite collectItems_all_ok by done. simpl.
  rewrite bool_decide_eq_false_2 by (rewrite length_map; lia).
  unfold ret. eexists _, _. split; [done|]. split.
  { rewrite length_drop, length_map. lia. }
  intros i Hi. rewrite lookup_drop, list_lookup_fmap.
  destruct (lookup_lt_is_Some_2 responses (Z.to_nat offset + i)) as [r Hr];
    [lia|].
  destruct (lookup_lt_is_Some_2 rc' (Z.to_nat offset + i)) as [cfg Hcfg];
    [lia|].
  destruct (Forall2_lookup_lr _ _ _ _ _ _ Hall Hcfg Hr) as (_ & it & Hit & Hsrc).
  exists it, cfg. rewrite Hr. simpl. rewrite Hit. split; [done|].
  split; [|done]. rewrite <- Hidx; [done|]. lia.
Qed.

Lemma mockGetContent_healthy rnd now cp :
  shouldFail cp = false → healthy (source cp) (mockGetContent rnd now cp).
Proof.
  intros Hok served ip n Hn. unfold mockGetContent. rewrite Hok. simpl.
  split; [done|]. split.
  - unfold slice_len. simpl. rewrite length_map, length_seq. lia.
  - apply Forall_take, Forall_fmap, Forall_forall. intros i _. simpl. eauto.
Qed.

Lemma soloService_healthy rnd now : allHealthy (soloService rnd now).
Proof.
  split; [done|]. intros cfg Hin. apply list_elem_of_singleton in Hin as ->.
  eexists. split; [apply lookup_insert_eq|].
  by apply (mockGetContent_healthy rnd now (mkMock "1" false)).
Qed.

Lemma C1_healthy_window_witness :
  allHealthy (soloService (λ _, "id") 0) ∧ 0 < 2 ∧ 0 ≤ 1 ∧ 2 + 1 ≤ int_max ∧
  servesWindow (soloService (λ _, "id") 0) "10.0.0.1" 2 1 world0.
Proof.
  assert (0 < 2 ∧ 0 ≤ 1 ∧ 2 + 1 ≤ int_max) as (H1 & H2 & H3).
  { unfold int_max. lia. }
  pose proof (soloService_healthy (λ _, "id") 0) as Hs.
  do 4 (split; [assumption|]).
  exact (C1_healthy_window _ "10.0.0.1" 2 1 world0 Hs H1 H2 H3).
Defined.

(** C1 as stated fails: with [count + offset] beyond the largest [int] the
    sum wraps to a negative number, no slot is prepared, and a healthy
    service answers [count = 2^63 - 1, offset = 1] with no item at all. *)
Lemma C1_counterexample :
  ¬ (∀ s userIP count offset w,
       allHealthy s → 0 < count → 0 ≤ offset →
       servesWindow s userIP count offset w).
Proof.
  intros H.
  destruct (H (soloService (λ _, "id") 0) "10.0.0.1" int_max 1 world0)
    as (items & w' & Hg & Hlen & _).
  - apply soloService_healthy.
  - unfold int_max. lia.
  - lia.
  - assert (GetContent (soloService (λ _, "id") 0) neverDone "10.0.0.1"
              int_max 1 world0 = (Done ([], None), world0)) as Hrun.
    { vm_compute. reflexivity. }
    rewrite Hrun in Hg. injection Hg as <- <-.
    unfold int_max in Hlen. simpl length in Hlen. lia.
Qed.

(** C10: GetContent returns the validation failure exactly when
    [count <= 0] or [offset < 0], and then the world is untouched: no fetch
    was dispatched and no select executed. *)
Theorem C10_validation s ctxDone userIP count offset w :
  (count ≤ 0 ∨ offset < 0 →
   GetContent s ctxDone userIP count offset w
   = (Done ([], Some ErrInvalidParams), w)) ∧
  (∀ items w',
     GetContent s ctxDone userIP count offset w
     = (Done (items, Some ErrInvalidParams), w') →
     count ≤ 0 ∨ offset < 0).
Proof.
  split; [apply GetContent_invalid|].
  intros items w' H. apply GetContent_trace in H as (_ & _ & [H|H]).
  - by destruct H as (_ & H & _).
  - by destruct H as (_ & _ & ce & ? & _).
Qed.

Lemma C10_validation_witness :
  (0 ≤ 0 ∨ 3 < 0 →
   GetContent (soloService (λ _, "id") 0) neverDone "10.0.0.1" 0 3 world0
   = (Done ([], Some ErrInvalidParams), world0)) ∧
  (∀ items w',
     GetContent (soloService (λ _, "id") 0) neverDone "10.0.0.1" 0 3 world0
     = (Done (items, Some ErrInvalidParams), w') →
     0 ≤ 0 ∨ 3 < 0).
Proof.
  exact (C10_validation (soloService (λ _, "id") 0) neverDone "10.0.0.1"
           0 3 world0).
Defined.

(** C7: if a select of the request takes the context case, GetContent
    returns [ctx.Err()] and no item, whatever was received before; and an
    error never comes with items. *)
Theorem C7_timeout s ctxDone userIP count offset w o w' :
  GetContent s ctxDone userIP count offset w = (o, w') →
  (∀ k e, (waits w ≤ k < waits w')%nat → ctxDone k = Some e →
     o = Done ([], Some (ErrCtx e))) ∧
  (∀ items e, o = Done (items, Some e) → items = []).
Proof.
  intros H. apply GetContent_trace in H as (Hw & Ho). split.
  - intros k e Hk He. destruct o as [[items [e0|]]|pn].
    + destruct Ho as (-> & [(_ & _ & ->)|(_ & _ & ce & -> & Hf)]); [lia|].
      destruct Hf as (Hlt & Hq & Hlast).
      destruct (decide (k = waits w' - 1)%nat) as [->|Hne].
      * destruct Hlast as [Hlast|[Hlast _]]; congruence.
      * rewrite Hq in He by lia. done.
    + rewrite Ho in He by done. done.
    + rewrite Ho in He by done. done.
  - intros items e ->. by destruct Ho as [-> _].
Qed.

Lemma C7_timeout_witness :
  (∀ k e, (0 ≤ k < 3)%nat → deadlineAt 2 k = Some e →
     Done ([] : list (option ContentItem), Some (ErrCtx DeadlineExceeded))
     = Done ([], Some (ErrCtx e))) ∧
  (∀ items e,
     Done ([] : list (option ContentItem), Some (ErrCtx DeadlineExceeded))
     = Done (items, Some e) → items = []).
Proof.
  apply (C7_timeout (errorService (λ _, "id") 0) (deadlineAt 2) "10.0.0.1"
           5 1 world0 _ (mkWorld [("5", 1); ("1", 2); ("2", 2); ("4", 1)] 3)).
  vm_compute. reflexivity.
Defined.

(** The collecting loop keeps the items of the longest failure-free prefix
    of the responses. *)
Lemma collectItems_prefix responses items :
  ∃ k, (k ≤ length responses)%nat ∧
       (∀ j r, (j < k)%nat → responses !! j = Some r → err r = None) ∧
       (k = length responses ∨
        ∃ r, responses !! k = Some r ∧ is_Some (err r)) ∧
       collectItems responses items = items ++ map item (take k responses).
Proof.
  revert items. induction responses as [|v rest IH]; intros items; simpl.
  - exists 0%nat. split; [done|]. split; [intros; lia|]. split; [by left|].
    by rewrite app_nil_r.
  - destruct (err v) as [e|] eqn:Hv.
    + exists 0%nat. split; [lia|]. split; [intros; lia|]. split.
      * right. exists v. by rewrite Hv.
      * by rewrite app_nil_r.
    + destruct (IH (items ++ [item v])) as (k & Hk & Hok & Hend & Heq).
      exists (S k). split; [lia|]. split; [|split].
      * intros [|j] r Hj Hr; simpl in Hr; [by simplify_eq|].
        apply (Hok j); [lia|done].
      * destruct Hend as [->|Hend]; [by left|by right].
      * rewrite Heq, <- app_assoc. done.
Qed.

(** C3: from the slot results of a request, GetContent keeps the items
    strictly before the first failed slot; it returns the empty list with
    no error when [offset >= len(items)], and [items[offset:]] otherwise,
    which is at most [count] long. *)
Theorem C3_window s ctxDone userIP count offset w responses w' :
  0 < count → 0 ≤ offset →
  getConfigResponses s ctxDone userIP count offset w
  = (Done (responses, None), w') →
  Z.of_nat (length responses) = count + offset →
  ∃ k items result,
    (∀ j r, (j < k)%nat → responses !! j = Some r → err r = None) ∧
    (k = length responses ∨
     ∃ r, responses !! k = Some r ∧ is_Some (err r)) ∧
    items = map item (take k responses) ∧
    GetContent s ctxDone userIP count offset w = (Done (result, None), w') ∧
    (Z.of_nat (length items) ≤ offset → result = []) ∧
    (offset < Z.of_nat (length items) →
     result = drop (Z.to_nat offset) items) ∧
    Z.of_nat (length result) ≤ count.
Proof.
  intros Hc Ho Hg Hlen.
  destruct (collectItems_prefix responses []) as (k & Hk & Hok & Hend & Heq).
  simpl in Heq.
  rewrite GetContent_valid, (bind_done _ _ _ _ _ Hg) by done. simpl.
  rewrite Heq. exists k, (map item (take k responses)).
  assert (length (map item (take k responses)) = k) as Hlk.
  { rewrite length_map, length_take. lia. }
  case_bool_decide as Hoff; unfold ret.
  - exists []. repeat split; try done; try lia. simpl. lia.
  - exists (drop (Z.to_nat offset) (map item (take k responses))).
    repeat split; try done; try lia.
    rewrite length_drop, Hlk. lia.
Qed.

Lemma C3_window_witness :
  ∃ k items result,
    (∀ j r, (j < k)%nat →
       [mkResp (Some (mkItem "id" "test title" "1" 0)) None] !! j = Some r →
       err r = None) ∧
    (k = length [mkResp (Some (mkItem "id" "test title" "1" 0)) None] ∨
     ∃ r, [mkResp (Some (mkItem "id" "test title" "1" 0)) None] !! k = Some r
          ∧ is_Some (err r)) ∧
    items
    = map item (take k [mkResp (Some (mkItem "id" "test title" "1" 0)) None]) ∧
    GetContent (soloService (λ _, "id") 0) neverDone "10.0.0.1" 1 0 world0
    = (Done (result, None), mkWorld [("1", 1)] 1) ∧
    (Z.of_nat (length items) ≤ 0 → result = []) ∧
    (0 < Z.of_nat (length items) → result = drop (Z.to_nat 0) items) ∧
    Z.of_nat (length result) ≤ 1.
Proof.
  apply (C3_window (soloService (λ _, "id") 0) neverDone "10.0.0.1" 1 0 world0).
  - lia.
  - lia.
  - vm_compute. reflexivity.
  - reflexivity.
Defined.

(** C8: the scenario of [TestProviderErrors]: providers 1 and 4 fail,
    2, 3 and 5 succeed. One item from offset 0 comes from the fallback 3 of
    slot 0; ten items from offset 0 are cut at slot 2, which fails without
    fallback, leaving the sources 3 and 2. *)
Theorem C8_scenario (rnd : nat → string) (now : Z) (userIP : string) :
  (∃ items w,
     GetContent (errorService rnd now) neverDone userIP 1 0 world0
     = (Done (items, None), w) ∧
     sources items = [Some "3"]) ∧
  (∃ items w,
     GetContent (errorService rnd now) neverDone userIP 10 0 world0
     = (Done (items, None), w) ∧
     sources items = [Some "3"; Some "2"]).
Proof.
  split; eexists _, _; (split; [vm_compute; reflexivity|reflexivity]).
Qed.

(** ** After the primary round *)

Section Fallbacks.

Variable s : Service.
Variable ctxDone : nat → option ctxError.
Variable userIP : string.

Lemma primaryRound_inv count offset slots w2 :
  primaryRound s ctxDone userIP count offset = Some (slots, w2) →
  ∃ requestConfigs pr w1 responses,
    prepareConfigsForRequest s count offset = Done requestConfigs ∧
    dispatch s userIP (map_to_list (primaryCounts requestConfigs)) ∅ world0
    = (Done pr, w1) ∧
    firstPass ctxDone requestConfigs pr w1 = (Done (inr responses), w2) ∧
    length responses = length requestConfigs ∧
    slots = zip requestConfigs responses.
Proof.
  unfold primaryRound. intros H.
  destruct (prepareConfigsForRequest s count offset) as [rc|] eqn:Hrc; [|done].
  destruct (dispatch _ _ _ _ _) as [[pr|] w1] eqn:Hd; [|done].
  destruct (firstPass _ _ _ _) as [[[|responses]|] w2'] eqn:Hf; try done.
  simplify_eq. exists rc, pr, w1, responses. repeat split; try done.
  by apply firstPass_trace in Hf as (_ & _ & _ & Hlen).
Qed.

(** What is left of [getConfigResponses] once the primary round is over. *)
Lemma getConfigResponses_after_primary count offset slots w2 :
  primaryRound s ctxDone userIP count offset = Some (slots, w2) →
  getConfigResponses s ctxDone userIP count offset world0
  = (if decide (size (fallbackCounts slots ∅) ≠ 0%nat) then
       bind (dispatch s userIP (map_to_list (fallbackCounts slots ∅)) ∅)
         (λ pr, bind (secondPass ctxDone slots pr)
            (λ r2, match r2 with
                   | inl e => ret ([], Some (ErrCtx e))
                   | inr responses' => ret (responses', None)
                   end))
     else ret (slots.*2, None)) w2.
Proof.
  intros H. apply primaryRound_inv in H
    as (rc & pr & w1 & responses & Hrc & Hd & Hf & Hlen & ->).
  unfold getConfigResponses.
  rewrite (bind_done _ _ world0 rc world0) by (unfold lift; by rewrite Hrc).
  rewrite (bind_done _ _ _ _ _ Hd), (bind_done _ _ _ _ _ Hf).
  rewrite snd_zip by lia. by case_decide.
Qed.

Lemma getPromiseForProvider_inv p n w o w' :
  getPromiseForProvider s userIP p n w = (o, w') → 0 ≤ n →
  (clients s !! p = None ∧ o = Panicked (PanicNoClient p)) ∨
  (is_Some (clients s !! p) ∧
   (o = Panicked PanicSliceBounds ∨ ∃ c, o = Done c)).
Proof.
  unfold getPromiseForProvider. intros H Hn.
  destruct (clients s !! p) as [c|]; [right|left; by simplify_eq].
  split; [done|]. rewrite bool_decide_eq_false_2 in H by lia.
  repeat case_match; simplify_eq; eauto.
Qed.

(** A dispatch that has an entry for a provider without client panics. *)
Lemma dispatch_missing entries acc w f n :
  (f, n) ∈ entries → clients s !! f = None →
  (∀ p z, (p, z) ∈ entries → 0 ≤ z) →
  ∃ pn w', dispatch s userIP entries acc w = (Panicked pn, w') ∧
    (pn = PanicSliceBounds ∨ ∃ q, pn = PanicNoClient q ∧ clients s !! q = None).
Proof.
  intros Hin Hf. revert acc w.
  induction entries as [|[p0 n0] rest IH]; intros acc w Hpos;
    [by apply elem_of_nil in Hin|]. simpl.
  destruct (getPromiseForProvider s userIP p0 n0 w) as [o w1] eqn:Hg.
  pose proof Hg as Hg'.
  apply getPromiseForProvider_inv in Hg'
    as [[Hnone ->]|[Hsome [->|[c ->]]]]; [| | |apply (Hpos p0); by left].
  - rewrite (bind_panicked _ _ _ _ _ Hg). eauto 10.
  - rewrite (bind_panicked _ _ _ _ _ Hg). eauto.
  - rewrite (bind_done _ _ _ _ _ Hg).
    apply elem_of_cons in Hin as [Heq|Hin].
    { simplify_eq. rewrite Hf in Hsome. by destruct Hsome. }
    apply IH; [done|]. intros p z Hpz. apply (Hpos p). by right.
Qed.

Lemma fallbackDemand_pos slots i k x f :
  (i < k)%nat → slots !! i = Some x → wantsFallback f x →
  (0 < fallbackDemand f (take k slots))%nat.
Proof.
  intros Hik Hi Hx. unfold fallbackDemand.
  assert (x ∈ filter (wantsFallback f) (take k slots)) as Hin.
  { apply list_elem_of_filter. split; [done|].
    apply list_elem_of_lookup. exists i. by rewrite lookup_take_lt. }
  destruct (filter _ _); [by apply elem_of_nil in Hin|simpl; lia].
Qed.

(** A failed slot with fallback [f], reached by the scan, puts [f] in the
    fallback tally. *)
Lemma fallbackCounts_reached slots i x f :
  slots !! i = Some x → wantsFallback f x →
  (∀ j y, (j < i)%nat → slots !! j = Some y → ¬ deadEnd y) →
  ∃ n, fallbackCounts slots ∅ !! f = Some n ∧ 0 < n.
Proof.
  intros Hi Hx Hbefore.
  destruct (scanStopsAt_exists slots) as (k & Hk & Hscan).
  assert (i < k)%nat as Hik.
  { destruct (decide (i < k)%nat) as [|Hge]; [done|exfalso].
    pose proof (lookup_lt_Some _ _ _ Hi) as Hlt.
    destruct Hscan as [_ [->|(y & Hy & Hdead)]]; [lia|].
    destruct (decide (k = i)) as [->|Hne].
    - simplify_eq. destruct Hx as [_ Hx], Hdead as [_ Hd]. congruence.
    - apply (Hbefore k y); [lia|done|done]. }
  pose proof (fallbackCounts_spec slots k f Hscan) as Ht.
  pose proof (fallbackDemand_pos slots i k x f Hik Hi Hx) as Hpos.
  unfold tallied in Ht. rewrite decide_False in Ht by lia.
  eexists. split; [done|lia].
Qed.

End Fallbacks.

(** C9: when the primary round ends with a failed slot whose fallback
    provider has no client, and the scan of the fallback pass reaches that
    slot, the request panics in the dispatch of the fallback round: no
    error is returned to the caller. *)
Theorem C9_orphan_fallback_panics s ctxDone userIP count offset
    slots w2 i cfg r f :
  0 < count → 0 ≤ offset →
  primaryRound s ctxDone userIP count offset = Some (slots, w2) →
  slots !! i = Some (cfg, r) → is_Some (err r) → Fallback cfg = Some f →
  (∀ j y, (j < i)%nat → slots !! j = Some y → ¬ deadEnd y) →
  clients s !! f = None →
  ∃ pn w',
    GetContent s ctxDone userIP count offset world0 = (Panicked pn, w') ∧
    (pn = PanicSliceBounds ∨
     ∃ q, pn = PanicNoClient q ∧ clients s !! q = None).
Proof.
  intros Hc Ho Hprim Hi Herr Hfb Hbefore Hf.
  destruct (fallbackCounts_reached slots i (cfg, r) f Hi) as (n & Hn & Hpos);
    [done|done|].
  destruct (dispatch_missing s userIP (map_to_list (fallbackCounts slots ∅))
              ∅ w2 f n) as (pn & w' & Hd & Hpn); [|done| |].
  { by apply elem_of_map_to_list. }
  { intros p z Hpz. destruct (scanStopsAt_exists slots) as (k & _ & Hscan).
    destruct (tallied_entry _ _ _ _ (fallbackCounts_spec slots k p Hscan) Hpz).
    lia. }
  exists pn, w'. split; [|done].
  rewrite GetContent_valid by done.
  erewrite bind_panicked; [done|].
  rewrite (getConfigResponses_after_primary _ _ _ _ _ _ _ Hprim).
  rewrite decide_True.
  - by apply bind_panicked.
  - apply map_size_ne_0_lookup. eauto.
Qed.

Lemma C9_orphan_fallback_panics_witness :
  ∃ pn w',
    GetContent (orphanFallback (λ _, "id") 0) neverDone "10.0.0.1" 1 0 world0
    = (Panicked pn, w') ∧
    (pn = PanicSliceBounds ∨
     ∃ q, pn = PanicNoClient q ∧
          clients (orphanFallback (λ _, "id") 0) !! q = None).
Proof.
  apply (C9_orphan_fallback_panics (orphanFallback (λ _, "id") 0) neverDone
           "10.0.0.1" 1 0
           [(mkConfig "1" (Some "3"),
             mkResp None (Some (ErrClient "test error")))]
           (mkWorld [("1", 1)] 1) 0
           (mkConfig "1" (Some "3"))
           (mkResp None (Some (ErrClient "test error"))) "3").
  - lia.
  - lia.
  - vm_compute. reflexivity.
  - reflexivity.
  - simpl. eauto.
  - reflexivity.
  - intros j y Hj. lia.
  - vm_compute. reflexivity.
Defined.

(** ** The fetches of a request *)

Section Fetches.

Variable s : Service.
Variable ctxDone : nat → option ctxError.
Variable userIP : string.

Lemma fetches_absent p (log : list (Provider * Z)) :
  p ∉ log.*1 → fetches p log = 0%nat.
Proof.
  unfold fetches. induction log as [|[q n] log IH]; intros Hp; [done|].
  simpl in Hp. apply not_elem_of_cons in Hp as [Hne Hp].
  rewrite filter_cons, decide_False by (simpl; congruence). by apply IH.
Qed.

Lemma fetches_NoDup p (log : list (Provider * Z)) :
  NoDup log.*1 → (fetches p log ≤ 1)%nat.
Proof.
  unfold fetches. induction log as [|[q n] log IH]; intros Hnd; simpl; [lia|].
  simpl in Hnd. apply NoDup_cons in Hnd as [Hq Hnd].
  rewrite filter_cons. case_decide as Hqp; simpl in *; [|by apply IH].
  subst. pose proof (fetches_absent _ _ Hq) as H0. unfold fetches in H0. lia.
Qed.

Lemma fetches_app p (l1 l2 : list (Provider * Z)) :
  fetches p (l1 ++ l2) = (fetches p l1 + fetches p l2)%nat.
Proof. unfold fetches. by rewrite filter_app, length_app. Qed.

Lemma prefix_entries_NoDup (l : list (Provider * Z)) (m : gmap Provider Z) :
  l `prefix_of` map_to_list m → NoDup l.*1.
Proof.
  intros [k Hk]. pose proof (NoDup_fst_map_to_list m) as Hnd.
  rewrite Hk, fmap_app in Hnd. by apply NoDup_app in Hnd as [? _].
Qed.

(** The log of [getConfigResponses]: entries of the primary tally, then
    entries of the fallback tally, each in the order of the dispatch and
    up to the point where a dispatch panicked. *)
Lemma getConfigResponses_log count offset o w' :
  getConfigResponses s ctxDone userIP count offset world0 = (o, w') →
  ∃ l1 l2, calls w' = l1 ++ l2 ∧
    (l1 = [] ∨
     ∃ requestConfigs,
       prepareConfigsForRequest s count offset = Done requestConfigs ∧
       l1 `prefix_of` map_to_list (primaryCounts requestConfigs)) ∧
    (l2 = [] ∨
     ∃ slots w2,
       primaryRound s ctxDone userIP count offset = Some (slots, w2) ∧
       l2 `prefix_of` map_to_list (fallbackCounts slots ∅)).
Proof.
  intros H. pose proof H as Hrun. unfold getConfigResponses in H.
  apply bind_inv in H as [(pn & H & ->)|(rc & w0 & Hrc & H1)];
    unfold lift in *; simplify_eq.
  { exists [], []. split; [done|]. split; by left. }
  assert (prepareConfigsForRequest s count offset = Done rc) as Hrc'
    by congruence.
  apply bind_inv in H1 as [(pn & Hd & ->)|(pr & w1 & Hd & H2)];
    pose proof Hd as Hd';
    apply dispatch_log in Hd' as (_ & l1 & Hl1 & Hc1 & _); simpl in Hc1.
  { exists l1, []. rewrite app_nil_r. split; [done|].
    split; [right; by exists rc|by left]. }
  apply bind_inv in H2 as [(pn & Hf & ->)|(r1 & w2 & Hf & H3)];
    pose proof Hf as Hf'; apply firstPass_trace in Hf' as (Hc2 & _ & Hr1);
    [done|].
  destruct r1 as [e|responses].
  { unfold ret in H3. injection H3 as <- <-. exists l1, [].
    rewrite app_nil_r.
    split; [congruence|]. split; [right; by exists rc|by left]. }
  assert (primaryRound s ctxDone userIP count offset
          = Some (zip rc responses, w2)) as Hprim.
  { unfold primaryRound. by rewrite Hrc', Hd, Hf. }
  rewrite (getConfigResponses_after_primary _ _ _ _ _ _ _ Hprim) in Hrun.
  case_decide as Hsize.
  2:{ unfold ret in Hrun. injection Hrun as <- <-. exists l1, [].
      rewrite app_nil_r.
      split; [congruence|]. split; [right; by exists rc|by left]. }
  apply bind_inv in Hrun as [(pn & Hd2 & ->)|(pr2 & w3 & Hd2 & H4)];
    apply dispatch_log in Hd2 as (_ & l2 & Hl2 & Hc3 & _).
  { exists l1, l2. split; [congruence|].
    split; [right; by exists rc|right; by exists (zip rc responses), w2]. }
  apply bind_inv in H4 as [(pn & Hs & ->)|(r2 & w4 & Hs & H5)];
    apply secondPass_trace in Hs as (Hc4 & _ & Hr2); [done|].
  assert (w' = w4) as ->.
  { destruct r2; unfold ret in H5; by injection H5. }
  exists l1, l2. split; [congruence|].
  split; [right; by exists rc|right; by exists (zip rc responses), w2].
Qed.

Lemma GetContent_log count offset o w' :
  GetContent s ctxDone userIP count offset world0 = (o, w') →
  calls w' = [] ∨
  ∃ o1, getConfigResponses s ctxDone userIP count offset world0 = (o1, w').
Proof.
  intros H.
  destruct (decide (count ≤ 0 ∨ offset < 0)) as [Hbad|Hok].
  { rewrite GetContent_invalid in H by done. simplify_eq. by left. }
  right. rewrite GetContent_valid in H by lia.
  apply bind_inv in H as [(pn & H & ->)|([responses e] & w1 & H & Hk)];
    [eauto|].
  simpl in Hk. assert (w' = w1) as ->; [|eauto].
  destruct e; [|case_bool_decide]; unfold ret in Hk; by simplify_eq.
Qed.

End Fetches.

(** C2: the fetches of a request are those of the primary round followed by
    those of the fallback round. Within a round no provider is fetched
    twice. A primary fetch asks for as many items as there are slots bound
    to the provider; a fallback fetch for as many as there are failed slots
    that fall back on the provider before the scan stops. No provider is
    fetched more than twice in all. *)
Theorem C2_fetches s ctxDone userIP count offset o w' :
  GetContent s ctxDone userIP count offset world0 = (o, w') →
  ∃ l1 l2, calls w' = l1 ++ l2 ∧
    NoDup l1.*1 ∧ NoDup l2.*1 ∧
    (∀ p n, (p, n) ∈ l1 →
       ∃ requestConfigs,
         prepareConfigsForRequest s count offset = Done requestConfigs ∧
         n = Z.of_nat (demand p requestConfigs) ∧ 0 < n) ∧
    (∀ p n, (p, n) ∈ l2 →
       ∃ slots w2 k,
         primaryRound s ctxDone userIP count offset = Some (slots, w2) ∧
         scanStopsAt slots k ∧
         n = Z.of_nat (fallbackDemand p (take k slots)) ∧ 0 < n) ∧
    (∀ p, (fetches p (calls w') ≤ 2)%nat).
Proof.
  intros H. apply GetContent_log in H as [Hnil|[o1 H]].
  { exists [], []. rewrite Hnil. split; [done|].
    do 2 (split; [constructor|]). split; [|split].
    - intros p n Hin. by apply elem_of_nil in Hin.
    - intros p n Hin. by apply elem_of_nil in Hin.
    - intros p. unfold fetches. simpl. lia. }
  apply getConfigResponses_log in H as (l1 & l2 & Hcalls & H1 & H2).
  assert (NoDup l1.*1) as Hnd1.
  { destruct H1 as [->|(rc & _ & Hpre)]; [constructor|].
    by eapply prefix_entries_NoDup. }
  assert (NoDup l2.*1) as Hnd2.
  { destruct H2 as [->|(slots & w2 & _ & Hpre)]; [constructor|].
    by eapply prefix_entries_NoDup. }
  exists l1, l2. split; [done|]. split; [done|]. split; [done|].
  split; [|split].
  - intros p n Hin. destruct H1 as [->|(rc & Hrc & Hpre)];
      [by apply elem_of_nil in Hin|].
    exists rc. split; [done|].
    eapply tallied_entry; [apply primaryCounts_spec|].
    by eapply elem_of_prefix.
  - intros p n Hin. destruct H2 as [->|(slots & w2 & Hprim & Hpre)];
      [by apply elem_of_nil in Hin|].
    destruct (scanStopsAt_exists slots) as (k & _ & Hscan).
    exists slots, w2, k. split; [done|]. split; [done|].
    eapply tallied_entry; [by apply fallbackCounts_spec|].
    by eapply elem_of_prefix.
  - intros p. rewrite Hcalls, fetches_app.
    pose proof (fetches_NoDup p l1 Hnd1). pose proof (fetches_NoDup p l2 Hnd2).
    lia.
Qed.

Lemma C2_fetches_witness :
  ∃ l1 l2,
    errorLog = l1 ++ l2 ∧
    NoDup l1.*1 ∧ NoDup l2.*1 ∧
    (∀ p n, (p, n) ∈ l1 →
       ∃ requestConfigs,
         prepareConfigsForRequest (errorService (λ _, "id") 0) 10 0
         = Done requestConfigs ∧
         n = Z.of_nat (demand p requestConfigs) ∧ 0 < n) ∧
    (∀ p n, (p, n) ∈ l2 →
       ∃ slots w2 k,
         primaryRound (errorService (λ _, "id") 0) neverDone "10.0.0.1" 10 0
         = Some (slots, w2) ∧
         scanStopsAt slots k ∧
         n = Z.of_nat (fallbackDemand p (take k slots)) ∧ 0 < n) ∧
    (∀ p, (fetches p errorLog ≤ 2)%nat).
Proof.
  apply (C2_fetches (errorService (λ _, "id") 0) neverDone "10.0.0.1" 10 0
           (Done ([Some (mkItem "id" "test title" "3" 0);
                   Some (mkItem "id" "test title" "2" 0)], None))
           (mkWorld errorLog 11)).
  vm_compute. reflexivity.
Defined.

(** C4: after the primary round, the fallback tally holds for each provider
    the number of failed slots that fall back on it and precede the first
    failed slot without fallback, where the scan stops. The fallback round
    fetches once per tallied provider and nothing is fetched after it: a
    scanned failed slot ends with what its fallback's promise yields,
    failure included, and every other slot keeps its primary outcome. *)
Theorem C4_fallback_round s ctxDone userIP count offset slots w2 k :
  primaryRound s ctxDone userIP count offset = Some (slots, w2) →
  scanStopsAt slots k →
  (∀ f, tallied (fallbackCounts slots ∅) f (fallbackDemand f (take k slots))) ∧
  (∀ pr w3 responses w4,
     size (fallbackCounts slots ∅) ≠ 0%nat →
     dispatch s userIP (map_to_list (fallbackCounts slots ∅)) ∅ w2
     = (Done pr, w3) →
     secondPass ctxDone slots pr w3 = (Done (inr responses), w4) →
     getConfigResponses s ctxDone userIP count offset world0
     = (Done (responses, None), w4) ∧
     calls w4 = calls w2 ++ map_to_list (fallbackCounts slots ∅) ∧
     ∀ i x, slots !! i = Some x →
       (err x.2 = None → responses !! i = Some x.2) ∧
       ((k ≤ i)%nat → responses !! i = Some x.2) ∧
       (∀ f, (i < k)%nat → wantsFallback f x →
          responses !! i
          = Some (recvAt (promiseOf pr f) (fallbackDemand f (take i slots))) ∧
          (is_Some (err (recvAt (promiseOf pr f)
                           (fallbackDemand f (take i slots)))) →
           ∃ r, responses !! i = Some r ∧ is_Some (err r)))).
Proof.
  intros Hprim Hscan. split; [intros f; by apply fallbackCounts_spec|].
  intros pr w3 responses w4 Hsize Hd Hs. split; [|split].
  - rewrite (getConfigResponses_after_primary _ _ _ _ _ _ _ Hprim).
    rewrite decide_True by done.
    by rewrite (bind_done _ _ _ _ _ Hd), (bind_done _ _ _ _ _ Hs).
  - pose proof Hs as Hs'. apply secondPass_trace in Hs' as (-> & _).
    apply dispatch_log in Hd as (_ & pre & _ & -> & Hall).
    by rewrite (Hall pr eq_refl).
  - intros i x Hi.
    destruct (secondPass_order _ _ _ _ _ _ _ Hs Hscan i x Hi)
      as (Hok & Hge & Hlt).
    split; [done|]. split; [done|]. intros f Hik Hf.
    specialize (Hlt f Hik Hf). split; [done|]. intros Hfail. eauto.
Qed.

Lemma C4_fallback_round_witness :
  ∃ slots w2,
    primaryRound (errorService (λ _, "id") 0) neverDone "10.0.0.1" 3 0
    = Some (slots, w2) ∧
    (∀ f, tallied (fallbackCounts slots ∅) f
            (fallbackDemand f (take 2 slots))) ∧
    (∀ pr w3 responses w4,
       size (fallbackCounts slots ∅) ≠ 0%nat →
       dispatch (errorService (λ _, "id") 0) "10.0.0.1"
         (map_to_list (fallbackCounts slots ∅)) ∅ w2
       = (Done pr, w3) →
       secondPass neverDone slots pr w3 = (Done (inr responses), w4) →
       getConfigResponses (errorService (λ _, "id") 0) neverDone "10.0.0.1"
         3 0 world0
       = (Done (responses, None), w4) ∧
       calls w4 = calls w2 ++ map_to_list (fallbackCounts slots ∅) ∧
       ∀ i x, slots !! i = Some x →
         (err x.2 = None → responses !! i = Some x.2) ∧
         ((2 ≤ i)%nat → responses !! i = Some x.2) ∧
         (∀ f, (i < 2)%nat → wantsFallback f x →
            responses !! i
            = Some (recvAt (promiseOf pr f)
                      (fallbackDemand f (take i slots))) ∧
            (is_Some (err (recvAt (promiseOf pr f)
                             (fallbackDemand f (take i slots)))) →
             ∃ r, responses !! i = Some r ∧ is_Some (err r)))).
Proof.
  eexists _, _. split; [vm_compute; reflexivity|].
  eapply (C4_fallback_round (errorService (λ _, "id") 0) neverDone
            "10.0.0.1" 3 0).
  - vm_compute. reflexivity.
  - split.
    + intros [|[|j]] x Hj Hx; [| |lia]; simpl in Hx;
        injection Hx as <-; unfold deadEnd; simpl.
      * intros [_ ?]. done.
      * intros [[? ?] _]. done.
    + right. eexists. split; [reflexivity|]. split; simpl; eauto.
Defined.



(** C5 (defect of the code): a client that reports success
    with fewer items than demanded does not yield failed slots. When the
    slice has no spare capacity, [items[:count]] panics in the fetch
    goroutine, which ends the process; when it has, the reslice reads past
    the length and a nil item is handed out as a success. *)
Theorem C5_under_delivery (userIP : string) :
  GetContent (mkService (<["1" := emptyHanded]> ∅) [mkConfig "1" None] 5)
    neverDone userIP 1 0 world0
  = (Panicked PanicSliceBounds, mkWorld [("1", 1)] 0) ∧
  GetContent (mkService (<["1" := shortOfOne]> ∅) [mkConfig "1" None] 5)
    neverDone userIP 1 0 world0
  = (Done ([None], None), mkWorld [("1", 1)] 1).
Proof. split; vm_compute; reflexivity. Qed.

(** What [NewService] checks: the [Type] of every config, nothing else. *)
Lemma NewService_spec configs (clients : gmap Provider Client) t :
  (Forall (λ cfg, is_Some (clients !! Type_ cfg)) configs →
   NewService configs clients t = (Some (mkService clients configs t), None)) ∧
  (¬ Forall (λ cfg, is_Some (clients !! Type_ cfg)) configs →
   ∃ p, NewService configs clients t = (None, Some (ErrNoClientProvided p)) ∧
        clients !! p = None).
Proof.
  unfold NewService.
  assert (match checkClients clients configs with
          | None => Forall (λ cfg, is_Some (clients !! Type_ cfg)) configs
          | Some e =>
              ¬ Forall (λ cfg, is_Some (clients !! Type_ cfg)) configs ∧
              ∃ p, e = ErrNoClientProvided p ∧ clients !! p = None
          end) as Hcheck.
  { induction configs as [|cfg rest IH]; simpl; [constructor|].
    destruct (clients !! Type_ cfg) as [c|] eqn:Hc.
    - destruct (checkClients clients rest) as [e|].
      + destruct IH as [Hn Hp]. split; [|done].
        intros Hall. apply Hn. by inversion Hall.
      + constructor; [by rewrite Hc|done].
    - split; [|eauto]. intros Hall. inversion Hall as [|? ? [? Hs] ?].
      congruence. }
  destruct (checkClients clients configs) as [e|].
  - destruct Hcheck as (Hn & p & -> & Hp). split; [done|]. eauto.
  - split; [done|]. intros Hn. done.
Qed.

(** C6 (defect of the code): construction succeeds with a
    config whose fallback has no client, and with no config at all; the
    first such service panics on a request whose slot fails, the second on
    any valid request. *)
Theorem C6_construction_accepts (rnd : nat → string) (now : Z)
    (userIP : string) :
  NewService [mkConfig "1" (Some "3")]
    (<["1" := mockGetContent rnd now (mkMock "1" true)]> ∅) 5
  = (Some (orphanFallback rnd now), None) ∧
  GetContent (orphanFallback rnd now) neverDone userIP 1 0 world0
  = (Panicked (PanicNoClient "3"), mkWorld [("1", 1)] 1) ∧
  NewService [] ∅ 5 = (Some (mkService ∅ [] 5), None) ∧
  GetContent (mkService ∅ [] 5) neverDone userIP 1 0 world0
  = (Panicked PanicDivideByZero, world0).
Proof. repeat split; vm_compute; reflexivity. Qed.

(** * Further properties of the service *)

Lemma checkClients_first (clients : gmap Provider Client) configs :
  (checkClients clients configs = None ∧
   Forall (λ cfg, is_Some (clients !! Type_ cfg)) configs) ∨
  (∃ i cfg,
     configs !! i = Some cfg ∧ clients !! Type_ cfg = None ∧
     checkClients clients configs = Some (ErrNoClientProvided (Type_ cfg)) ∧
     ∀ j cfg', (j < i)%nat → configs !! j = Some cfg' →
       is_Some (clients !! Type_ cfg')).
Proof.
  induction configs as [|cfg rest IH]; simpl.
  - left. split; [done|constructor].
  - destruct (clients !! Type_ cfg) as [c|] eqn:Hc.
    + destruct IH as [[-> Hall]|(i & cfg' & Hi & Hnone & -> & Hbefore)].
      * left. split; [done|]. constructor; [by rewrite Hc|done].
      * right. exists (S i), cfg'. repeat split; try done.
        intros [|j] cfg'' Hj Hcfg''; simpl in Hcfg''.
        -- injection Hcfg'' as <-. by rewrite Hc.
        -- apply (Hbefore j); [lia|done].
    + right. exists 0%nat, cfg. repeat split; try done. intros; lia.
Qed.

(** X1: construction either yields the service over exactly the given
    configs, clients and timeout, every config's [Type] having a client, or
    it yields no service and the error names the [Type] of the first config
    in the list that has none. *)
Theorem X1_NewService_outcome configs (clients : gmap Provider Client) t :
  (NewService configs clients t = (Some (mkService clients configs t), None) ∧
   Forall (λ cfg, is_Some (clients !! Type_ cfg)) configs) ∨
  (∃ i cfg,
     configs !! i = Some cfg ∧ clients !! Type_ cfg = None ∧
     NewService configs clients t
     = (None, Some (ErrNoClientProvided (Type_ cfg))) ∧
     ∀ j cfg', (j < i)%nat → configs !! j = Some cfg' →
       is_Some (clients !! Type_ cfg')).
Proof.
  unfold NewService.
  destruct (checkClients_first clients configs)
    as [[-> Hall]|(i & cfg & Hi & Hnone & -> & Hbefore)].
  - by left.
  - right. exists i, cfg. done.
Qed.

(** X2: over configs that are not empty, the preparation yields
    [count + offset] slots (the sum as a Go [int]), and slot [i] is bound
    to config [i mod len(configs)]. *)
Theorem X2_slots_cycle s count offset :
  contentConfigs s ≠ [] →
  ∃ requestConfigs,
    prepareConfigsForRequest s count offset = Done requestConfigs ∧
    length requestConfigs = Z.to_nat (int_add count offset) ∧
    ∀ i, (i < length requestConfigs)%nat →
      requestConfigs !! i
      = contentConfigs s !! (i mod length (contentConfigs s))%nat.
Proof. apply prepareConfigsForRequest_spec. Qed.

Lemma X2_slots_cycle_witness :
  ∃ requestConfigs,
    prepareConfigsForRequest (errorService (λ _, "id") 0) 4 2
    = Done requestConfigs ∧
    length requestConfigs = Z.to_nat (int_add 4 2) ∧
    ∀ i, (i < length requestConfigs)%nat →
      requestConfigs !! i
      = contentConfigs (errorService (λ _, "id") 0)
          !! (i mod length (contentConfigs (errorService (λ _, "id") 0)))%nat.
Proof.
  apply (X2_slots_cycle (errorService (λ _, "id") 0) 4 2). simpl. discriminate.
Defined.

(** X3: a service without configs panics with a division by zero on every
    valid request, before any fetch is dispatched and any select
    executed. *)
Theorem X3_no_config_panics s ctxDone userIP count offset w :
  contentConfigs s = [] →
  0 < count → 0 ≤ offset → count + offset ≤ int_max →
  GetContent s ctxDone userIP count offset w = (Panicked PanicDivideByZero, w).
Proof.
  intros Hnil Hc Ho Hmax. rewrite GetContent_valid by done.
  apply bind_panicked. unfold getConfigResponses. apply bind_panicked.
  unfold lift, prepareConfigsForRequest.
  rewrite int_add_exact by (unfold int_min; lia).
  destruct (Z.to_nat (count + offset)) as [|n] eqn:Hn; [lia|].
  simpl. rewrite Hnil. done.
Qed.

Lemma X3_no_config_panics_witness :
  GetContent (mkService ∅ [] 5) neverDone "10.0.0.1" 3 2 world0
  = (Panicked PanicDivideByZero, world0).
Proof.
  apply X3_no_config_panics; [reflexivity|lia|lia|unfold int_max; lia].
Defined.

Lemma prepareLoop_length s idxs acc l :
  prepareLoop s idxs acc = Done l →
  length l = (length acc + length idxs)%nat.
Proof.
  revert acc. induction idxs as [|i rest IH]; intros acc H; simpl in H.
  - injection H as <-. simpl. lia.
  - case_decide; [done|].
    destruct (contentConfigs s !! _) as [cfg|]; [|done].
    apply IH in H. rewrite length_app in H. simpl in *. lia.
Qed.

(** The responses of a request are as many as its slots. *)
Lemma getConfigResponses_length s ctxDone userIP count offset w responses w' :
  getConfigResponses s ctxDone userIP count offset w
  = (Done (responses, None), w') →
  length responses = Z.to_nat (int_add count offset).
Proof.
  unfold getConfigResponses. intros H.
  apply bind_inv in H as [(pn & _ & ?)|(rc & w0 & Hrc & H1)]; [done|].
  unfold lift in Hrc. injection Hrc as Hrc <-.
  apply prepareLoop_length in Hrc. rewrite length_seq in Hrc. simpl in Hrc.
  apply bind_inv in H1 as [(pn & _ & ?)|(pr & w1 & _ & H2)]; [done|].
  apply bind_inv in H2 as [(pn & _ & ?)|(r1 & w2 & Hf & H3)]; [done|].
  apply firstPass_trace in Hf as (_ & _ & Hr1).
  destruct r1 as [e|rs]; [unfold ret in H3; done|].
  destruct Hr1 as [_ Hlen].
  case_decide.
  2:{ unfold ret in H3. injection H3 as <- _. lia. }
  apply bind_inv in H3 as [(pn & _ & ?)|(pr2 & w3 & _ & H4)]; [done|].
  apply bind_inv in H4 as [(pn & _ & ?)|(r2 & w4 & Hs & H5)]; [done|].
  apply secondPass_trace in Hs as (_ & _ & Hr2).
  destruct r2 as [e|rs']; unfold ret in H5; [done|].
  injection H5 as <- _. destruct Hr2 as [_ Hlen2].
  rewrite Hlen2, length_zip. lia.
Qed.

(** X8: whatever the providers and the schedule do, GetContent never
    returns more than [count] items. *)
Theorem X8_at_most_count s ctxDone userIP count offset w items e w' :
  count ≤ int_max → offset ≤ int_max →
  GetContent s ctxDone userIP count offset w = (Done (items, e), w') →
  (length items ≤ Z.to_nat count)%nat.
Proof.
  intros Hc Ho H.
  destruct (decide (count ≤ 0 ∨ offset < 0)) as [Hbad|Hok].
  { rewrite GetContent_invalid in H by done. injection H as <- _ _.
    simpl. lia. }
  rewrite GetContent_valid in H by lia.
  apply bind_inv in H as [(pn & _ & ?)|([responses e1] & w1 & Hg & Hk)];
    [done|].
  simpl in Hk. destruct e1 as [e1|].
  { unfold ret in Hk. injection Hk as <- _ _. simpl. lia. }
  apply getConfigResponses_length in Hg.
  destruct (collectItems_prefix responses []) as (k & Hk' & _ & _ & Heq).
  simpl in Heq. rewrite Heq in Hk.
  assert (Z.to_nat (int_add count offset) ≤ Z.to_nat (count + offset))%nat
    as Hwrap.
  { unfold int_add, int_wrap, int_max in *.
    destruct (decide (count + offset < 2 ^ 63)) as [Hs|Hs].
    - rewrite Z.mod_small by lia. lia.
    - replace ((count + offset + 2 ^ 63) `mod` 2 ^ 64)
        with (count + offset + 2 ^ 63 - 2 ^ 64).
      + lia.
      + symmetry. rewrite <- (Z.mod_small (count + offset + 2 ^ 63 - 2 ^ 64)
                                (2 ^ 64)) by lia.
        replace (count + offset + 2 ^ 63 - 2 ^ 64)
          with (count + offset + 2 ^ 63 + (-1) * 2 ^ 64) by lia.
        by rewrite Z.mod_add. }
  case_bool_decide; unfold ret in Hk; injection Hk as <- _ _; simpl; [lia|].
  rewrite length_drop, length_map, length_take. lia.
Qed.

Lemma X8_at_most_count_witness :
  (length [Some (mkItem "id" "test title" "3" 0);
           Some (mkItem "id" "test title" "2" 0)] ≤ Z.to_nat 10)%nat.
Proof.
  apply (X8_at_most_count (errorService (λ _, "id") 0) neverDone "10.0.0.1"
           10 0 world0 _ None (mkWorld errorLog 11)).
  - unfold int_max. lia.
  - unfold int_max. lia.
  - vm_compute. reflexivity.
Defined.

Lemma prepareConfigsForRequest_sum s count offset :
  prepareConfigsForRequest s count offset
  = prepareConfigsForRequest s (count + offset) 0.
Proof.
  unfold prepareConfigsForRequest, int_add. by rewrite Z.add_0_r.
Qed.

Lemma getConfigResponses_sum s ctxDone userIP count offset :
  getConfigResponses s ctxDone userIP count offset
  = getConfigResponses s ctxDone userIP (count + offset) 0.
Proof.
  unfold getConfigResponses. by rewrite (prepareConfigsForRequest_sum s count).
Qed.

(** X9: paging is consistent. A request for [count] items from [offset]
    runs as the request for [count + offset] items from 0 does, with the
    same fetches, selects, error or panic, and returns that request's items
    without the first [offset]. *)
Theorem X9_window_of_full_list s ctxDone userIP count offset w :
  0 < count → 0 ≤ offset → count + offset ≤ int_max →
  GetContent s ctxDone userIP count offset w
  = match GetContent s ctxDone userIP (count + offset) 0 w with
    | (Done (items, e), w') => (Done (drop (Z.to_nat offset) items, e), w')
    | (Panicked pn, w') => (Panicked pn, w')
    end.
Proof.
  intros Hc Ho _. rewrite !GetContent_valid by lia.
  rewrite (getConfigResponses_sum s ctxDone userIP count offset).
  unfold bind.
  destruct (getConfigResponses s ctxDone userIP (count + offset) 0 w)
    as [[[responses [e|]]|pn] w1]; simpl; unfold ret; try done.
  { by rewrite drop_nil. }
  set (items := collectItems responses []).
  destruct (decide (Z.of_nat (length items) ≤ offset)) as [Hle|Hgt].
  - rewrite (bool_decide_eq_true_2 (_ ≤ offset)) by done.
    case_bool_decide; simpl; rewrite ?drop_0;
      by rewrite (drop_ge _ (Z.to_nat offset)) by (simpl; lia).
  - rewrite (bool_decide_eq_false_2 (_ ≤ offset)) by done.
    rewrite bool_decide_eq_false_2 by lia. done.
Qed.

Lemma X9_window_of_full_list_witness :
  GetContent (errorService (λ _, "id") 0) neverDone "10.0.0.1" 1 1 world0
  = match GetContent (errorService (λ _, "id") 0) neverDone "10.0.0.1"
            (1 + 1) 0 world0 with
    | (Done (items, e), w') => (Done (drop (Z.to_nat 1) items, e), w')
    | (Panicked pn, w') => (Panicked pn, w')
    end.
Proof.
  apply X9_window_of_full_list; [lia|lia|unfold int_max; lia].
Defined.

(** X4: the assignment order of the primary pass. When every slot is
    received, slot [i] holds what the promise of its provider yields at the
    receive numbered by the earlier slots of that provider: the [k]-th
    response of a fetch goes to the [k]-th slot waiting for it, and a slot
    beyond the responses gets "not enough items". *)
Theorem X4_assignment_order ctxDone cfgs (pr : gmap Provider chan) w
    responses w' :
  firstPass ctxDone cfgs pr w = (Done (inr responses), w') →
  ∀ i cfg, cfgs !! i = Some cfg →
    responses !! i
    = Some (recvAt (promiseOf pr (Type_ cfg)) (demand (Type_ cfg) (take i cfgs))).
Proof. apply firstPass_order. Qed.

Lemma X4_assignment_order_witness :
  [mkResp (Some (mkItem "a" "t" "1" 0)) None;
   mkResp None (Some (ErrClient "down"));
   mkResp (Some (mkItem "b" "t" "1" 0)) None;
   mkResp None (Some ErrNotEnoughItems)] !! 2%nat
  = Some (recvAt
            (promiseOf
               (<["1" := [mkResp (Some (mkItem "a" "t" "1" 0)) None;
                          mkResp (Some (mkItem "b" "t" "1" 0)) None]]>
                (<["2" := [mkResp None (Some (ErrClient "down"))]]> ∅))
               (Type_ (mkConfig "1" None)))
            (demand (Type_ (mkConfig "1" None))
               (take 2 [mkConfig "1" None; mkConfig "2" None;
                        mkConfig "1" None; mkConfig "1" None]))).
Proof.
  apply (X4_assignment_order neverDone
           [mkConfig "1" None; mkConfig "2" None;
            mkConfig "1" None; mkConfig "1" None]
           _ world0 _ (mkWorld [] 4)).
  - vm_compute. reflexivity.
  - reflexivity.
Defined.

Section MoreRounds.

Variable s : Service.
Variable ctxDone : nat → option ctxError.
Variable userIP : string.

Lemma dispatch_frame entries acc w pr w' p :
  dispatch s userIP entries acc w = (Done pr, w') →
  p ∉ entries.*1 → pr !! p = acc !! p.
Proof.
  revert acc w. induction entries as [|[p0 n0] rest IH]; intros acc w H Hp;
    simpl in H.
  - unfold ret in H. by injection H as <- _.
  - simpl in Hp. apply not_elem_of_cons in Hp as [Hne Hp].
    apply bind_inv in H as [(pn & _ & ?)|(c & w1 & _ & Hrest)]; [done|].
    rewrite (IH _ _ Hrest Hp). by rewrite lookup_insert_ne.
Qed.

(** After a dispatch, the promise of every entry is what a fetch of that
    size from its provider delivered. *)
Lemma dispatch_entries entries acc w pr w' :
  dispatch s userIP entries acc w = (Done pr, w') →
  NoDup entries.*1 →
  ∀ p n, (p, n) ∈ entries →
    ∃ q w1 w2,
      getPromiseForProvider s userIP p n w1 = (Done q, w2) ∧ pr !! p = Some q.
Proof.
  revert acc w. induction entries as [|[p0 n0] rest IH]; intros acc w H Hnd p n Hin;
    [by apply elem_of_nil in Hin|]. simpl in *.
  apply NoDup_cons in Hnd as [Hp0 Hnd].
  apply bind_inv in H as [(pn & _ & ?)|(c & w1 & Hg & Hrest)]; [done|].
  apply elem_of_cons in Hin as [Heq|Hin].
  - injection Heq as -> ->. exists c, w, w1. split; [done|].
    rewrite (dispatch_frame _ _ _ _ _ _ Hrest Hp0). apply lookup_insert_eq.
  - by eapply IH.
Qed.

Lemma dispatch_covers entries acc w pr w' p :
  dispatch s userIP entries acc w = (Done pr, w') →
  p ∈ entries.*1 ∨ is_Some (acc !! p) → is_Some (pr !! p).
Proof.
  revert acc w. induction entries as [|[p0 n0] rest IH]; intros acc w H Hp;
    simpl in *.
  - unfold ret in H. injection H as <- _. destruct Hp as [Hp|Hp]; [|done].
    by apply elem_of_nil in Hp.
  - apply bind_inv in H as [(pn & _ & ?)|(c & w1 & _ & Hrest)]; [done|].
    apply (IH _ _ Hrest). rewrite lookup_insert_is_Some.
    destruct Hp as [Hp|Hp].
    + apply elem_of_cons in Hp as [->|Hp]; [right; by left|by left].
    + right. destruct (decide (p0 = p)); [by left|by right].
Qed.

Lemma getPromiseForProvider_healthy_inv p c n w q w' :
  clients s !! p = Some c → healthy p c → 0 ≤ n →
  getPromiseForProvider s userIP p n w = (Done q, w') →
  length q = Z.to_nat n ∧ Forall (itemFrom p) q.
Proof.
  intros Hc Hh Hn H.
  destruct (getPromiseForProvider_healthy s userIP p c n w Hc Hh Hn)
    as (q' & w'' & Hq' & Hlen & Hall).
  rewrite Hq' in H. by injection H as <- _.
Qed.

Lemma fallbackDemand_take_lt slots i k x f :
  (i < k)%nat → slots !! i = Some x → wantsFallback f x →
  (fallbackDemand f (take i slots) < fallbackDemand f (take k slots))%nat.
Proof.
  intros Hik Hi Hx.
  assert (take k slots !! i = Some x) as Hi' by by rewrite lookup_take_lt.
  rewrite <- (take_drop_middle (take k slots) i x Hi').
  rewrite take_take, Nat.min_l by lia.
  unfold fallbackDemand. rewrite filter_app, length_app, filter_cons.
  rewrite decide_True by done. simpl. lia.
Qed.

Lemma firstPass_waits cfgs pr w responses w' :
  firstPass ctxDone cfgs pr w = (Done (inr responses), w') →
  waits w' = (waits w + length cfgs)%nat.
Proof.
  revert pr w responses. induction cfgs as [|cfg rest IH];
    intros pr w responses H; simpl in H.
  - unfold ret in H. injection H as _ <-. simpl. lia.
  - apply bind_inv in H as [(pn & _ & ?)|(x & w1 & Ha & Hk)]; [done|].
    apply await_inv in Ha as (_ & Hw & [(e & ? & _)|(_ & q & _ & ?)]);
      simplify_eq; simpl in Hk.
    apply bind_inv in Hk as [(pn & _ & ?)|(r & w2 & Hk & Hret)]; [done|].
    unfold ret in Hret. destruct r as [e|rs]; [done|].
    injection Hret as _ <-. apply IH in Hk. simpl. lia.
Qed.

(** When every provider a slot asks has a promise, the primary pass ends
    early only where a select took the context case. *)
Lemma firstPass_fired cfgs pr w e w' :
  (∀ cfg, cfg ∈ cfgs → is_Some (pr !! Type_ cfg)) →
  firstPass ctxDone cfgs pr w = (Done (inl e), w') →
  (waits w < waits w')%nat ∧ ctxDone (waits w' - 1)%nat = Some e.
Proof.
  revert pr w. induction cfgs as [|cfg rest IH]; intros pr w Hpr H; simpl in H.
  - unfold ret in H. done.
  - apply bind_inv in H as [(pn & _ & ?)|(x & w1 & Ha & Hk)]; [done|].
    apply await_inv in Ha
      as (_ & Hw & [(e' & ? & [He|(_ & Hnil & _)])|(_ & q & Hq & ?)]);
      simplify_eq; simpl in Hk.
    + unfold ret in Hk. injection Hk as <- <-. rewrite Hw.
      split; [lia|]. by replace (S (waits w) - 1)%nat with (waits w) by lia.
    + destruct (Hpr cfg) as [? Hsome]; [by left|]. congruence.
    + apply bind_inv in Hk as [(pn & _ & ?)|(r & w2 & Hk & Hret)]; [done|].
      unfold ret in Hret. destruct r as [e0|rs]; [|done].
      injection Hret as <- <-. apply IH in Hk as [Hlt He].
      * split; [lia|done].
      * intros cfg' Hin. rewrite lookup_insert_is_Some.
        destruct (decide (Type_ cfg = Type_ cfg')); [by left|right].
        split; [done|]. apply Hpr. by right.
Qed.

(** When every fallback that the scan reaches has a promise, the fallback
    pass ends early only where a select took the context case. *)
Lemma secondPass_fired slots pr w e w' :
  (∀ i x f, slots !! i = Some x →
     (∀ j y, (j < i)%nat → slots !! j = Some y → ¬ deadEnd y) →
     wantsFallback f x → is_Some (pr !! f)) →
  secondPass ctxDone slots pr w = (Done (inl e), w') →
  (waits w < waits w')%nat ∧ ctxDone (waits w' - 1)%nat = Some e.
Proof.
  revert pr w. induction slots as [|[cfg0 r0] rest IH]; intros pr w Hpr H;
    simpl in H.
  - unfold ret in H. done.
  - assert (¬ deadEnd (cfg0, r0) →
            ∀ pr' : gmap Provider chan,
              (∀ f, is_Some (pr !! f) → is_Some (pr' !! f)) →
            ∀ i x f, rest !! i = Some x →
              (∀ j y, (j < i)%nat → rest !! j = Some y → ¬ deadEnd y) →
              wantsFallback f x → is_Some (pr' !! f)) as Hrest.
    { intros Halive pr' Hmono i x f Hi Hbefore Hx. apply Hmono.
      apply (Hpr (S i) x f); [done| |done].
      intros [|j] y Hj Hy; simpl in Hy; [by injection Hy as <-|].
      apply (Hbefore j); [lia|done]. }
    destruct (err r0) as [e0|] eqn:Herr.
    + destruct (Fallback cfg0) as [f0|] eqn:Hfb; [|unfold ret in H; done].
      assert (¬ deadEnd (cfg0, r0)) as Halive.
      { unfold deadEnd. simpl. rewrite Hfb. by intros [_ ?]. }
      apply bind_inv in H as [(pn & _ & ?)|(x & w1 & Ha & Hk)]; [done|].
      apply await_inv in Ha
        as (_ & Hw & [(e' & ? & [He|(_ & Hnil & _)])|(_ & q & Hq & ?)]);
        simplify_eq; simpl in Hk.
      * unfold ret in Hk. injection Hk as <- <-. rewrite Hw.
        split; [lia|]. by replace (S (waits w) - 1)%nat with (waits w) by lia.
      * assert (wantsFallback f0 (cfg0, r0)) as Hwant.
        { unfold wantsFallback. simpl. rewrite Herr, Hfb. eauto. }
        assert (∀ j y, (j < 0)%nat → ((cfg0, r0) :: rest) !! j = Some y →
                       ¬ deadEnd y) as Hnone by (intros; lia).
        destruct (Hpr 0%nat (cfg0, r0) f0 eq_refl Hnone Hwant) as [? Hsome].
        congruence.
      * apply bind_inv in Hk as [(pn & _ & ?)|(r & w2 & Hk & Hret)]; [done|].
        unfold ret in Hret. destruct r as [e1|rs]; [|done].
        injection Hret as <- <-. apply IH in Hk as [Hlt He].
        -- split; [lia|done].
        -- apply (Hrest Halive). intros f Hf. rewrite lookup_insert_is_Some.
           destruct (decide (f0 = f)); [by left|by right].
    + assert (¬ deadEnd (cfg0, r0)) as Halive.
      { unfold deadEnd. simpl. rewrite Herr. by intros [[? ?] _]. }
      apply bind_inv in H as [(pn & _ & ?)|(r & w2 & Hk & Hret)]; [done|].
      unfold ret in Hret. destruct r as [e1|rs]; [|done].
      injection Hret as <- <-. apply IH in Hk; [done|].
      by apply (Hrest Halive).
Qed.

End MoreRounds.

(** X5: fallback substitution. When the request returns its responses, a
    failed slot that the scan reaches and whose fallback provider has a
    healthy client holds an item produced by that fallback. *)
Theorem X5_fallback_substitution s ctxDone userIP count offset
    slots w2 k responses w4 i x f c :
  primaryRound s ctxDone userIP count offset = Some (slots, w2) →
  scanStopsAt slots k →
  getConfigResponses s ctxDone userIP count offset world0
  = (Done (responses, None), w4) →
  slots !! i = Some x → (i < k)%nat → wantsFallback f x →
  clients s !! f = Some c → healthy f c →
  ∃ r, responses !! i = Some r ∧ itemFrom f r.
Proof.
  intros Hprim Hscan Hg Hi Hik Hx Hc Hh.
  pose proof (fallbackCounts_spec slots k f Hscan) as Ht.
  pose proof (fallbackDemand_take_lt slots i k x f Hik Hi Hx) as Hlt.
  unfold tallied in Ht. rewrite decide_False in Ht by lia.
  rewrite (getConfigResponses_after_primary _ _ _ _ _ _ _ Hprim) in Hg.
  rewrite decide_True in Hg by (apply map_size_ne_0_lookup; eauto).
  apply bind_inv in Hg as [(pn & _ & ?)|(pr & w3 & Hd & Hg)]; [done|].
  apply bind_inv in Hg as [(pn & _ & ?)|(r2 & w5 & Hs & Hret)]; [done|].
  destruct r2 as [e|responses']; unfold ret in Hret; [done|].
  injection Hret as -> _.
  destruct (secondPass_order _ _ _ _ _ _ _ Hs Hscan i x Hi) as (_ & _ & Hsub).
  rewrite (Hsub f Hik Hx). eexists. split; [done|].
  destruct (dispatch_entries _ _ _ _ _ _ _ Hd (NoDup_fst_map_to_list _) f _
              (proj2 (elem_of_map_to_list _ _ _) Ht))
    as (q & wa & wb & Hq & Hpr).
  apply (getPromiseForProvider_healthy_inv _ _ _ c) in Hq
    as [Hlen Hall]; [|done|done|lia].
  unfold promiseOf, recvAt. rewrite Hpr. simpl.
  destruct (lookup_lt_is_Some_2 q (fallbackDemand f (take i slots)))
    as [r Hr]; [lia|].
  rewrite Hr. simpl. eapply Forall_lookup_1; eauto.
Qed.

Lemma X5_fallback_substitution_witness :
  ∃ r,
    [mkResp (Some (mkItem "id" "test title" "3" 0)) None;
     mkResp (Some (mkItem "id" "test title" "2" 0)) None;
     mkResp None (Some (ErrClient "test error"))] !! 0%nat = Some r ∧
    itemFrom "3" r.
Proof.
  eapply (X5_fallback_substitution (errorService (λ _, "id") 0) neverDone
            "10.0.0.1" 3 0 _ _ 2 _ _ 0
            (mkConfig "1" (Some "3"),
             mkResp None (Some (ErrClient "test error"))) "3"
            (mockGetContent (λ _, "id") 0 (mkMock "3" false))).
  - vm_compute. reflexivity.
  - split.
    + intros [|[|j]] y Hj Hy; [| |lia]; simpl in Hy;
        injection Hy as <-; unfold deadEnd; simpl.
      * intros [_ ?]. done.
      * intros [[? ?] _]. done.
    + right. eexists. split; [reflexivity|]. split; simpl; eauto.
  - vm_compute. reflexivity.
  - reflexivity.
  - lia.
  - split; simpl; eauto.
  - reflexivity.
  - by apply (mockGetContent_healthy (λ _, "id") 0 (mkMock "3" false)).
Defined.

(** X6: truncation. When the primary round leaves slot [k] as the first
    failed slot without fallback, a request that returns without error
    returns at most the [k - offset] items before that slot, hence nothing
    when [offset >= k]. *)
Theorem X6_truncation s ctxDone userIP count offset slots w2 k x items w' :
  0 < count → 0 ≤ offset →
  primaryRound s ctxDone userIP count offset = Some (slots, w2) →
  scanStopsAt slots k → slots !! k = Some x →
  GetContent s ctxDone userIP count offset world0 = (Done (items, None), w') →
  (length items ≤ k - Z.to_nat offset)%nat.
Proof.
  intros Hc Ho Hprim Hscan Hk H.
  assert (is_Some (err x.2)) as Hfail.
  { destruct Hscan as [_ [->|(y & Hy & [Hy' _])]].
    - apply lookup_lt_Some in Hk. lia.
    - rewrite Hk in Hy. by injection Hy as ->. }
  rewrite GetContent_valid in H by done.
  apply bind_inv in H as [(pn & _ & ?)|([responses e] & w1 & Hg & Hret)];
    [done|].
  simpl in Hret. destruct e as [e|]; [unfold ret in Hret; done|].
  assert (responses !! k = Some x.2) as Hrk.
  { rewrite (getConfigResponses_after_primary _ _ _ _ _ _ _ Hprim) in Hg.
    case_decide.
    - apply bind_inv in Hg as [(pn & _ & ?)|(pr & w3 & _ & Hg)]; [done|].
      apply bind_inv in Hg as [(pn & _ & ?)|(r2 & w5 & Hs & Hr2)]; [done|].
      destruct r2 as [e|responses']; unfold ret in Hr2; [done|].
      injection Hr2 as -> _.
      destruct (secondPass_order _ _ _ _ _ _ _ Hs Hscan k x Hk) as (_ & Hge & _).
      by apply Hge.
    - unfold ret in Hg. injection Hg as <- _.
      by rewrite list_lookup_fmap, Hk. }
  destruct (collectItems_prefix responses []) as (k' & _ & Hok & _ & Heq).
  simpl in Heq. rewrite Heq in Hret.
  assert (k' ≤ k)%nat as Hle.
  { destruct (decide (k' ≤ k)%nat) as [|Hgt]; [done|exfalso].
    rewrite (Hok k x.2) in Hfail by (done || lia). by destruct Hfail. }
  case_bool_decide; unfold ret in Hret; injection Hret as <- _; simpl; [lia|].
  rewrite length_drop, length_map, length_take. lia.
Qed.

Lemma X6_truncation_witness :
  (length [Some (mkItem "id" "test title" "2" 0)] ≤ 2 - Z.to_nat 1)%nat.
Proof.
  eapply (X6_truncation (errorService (λ _, "id") 0) neverDone "10.0.0.1"
            3 1 _ _ 2
            (mkConfig "4" None, mkResp None (Some (ErrClient "test error")))).
  - lia.
  - lia.
  - vm_compute. reflexivity.
  - split.
    + intros [|[|j]] y Hj Hy; [| |lia]; simpl in Hy;
        injection Hy as <-; unfold deadEnd; simpl.
      * intros [_ ?]. done.
      * intros [[? ?] _]. done.
    + right. eexists. split; [reflexivity|]. split; simpl; eauto.
  - reflexivity.
  - vm_compute. reflexivity.
Defined.

Lemma fetches_map_to_list p (m : gmap Provider Z) :
  fetches p (map_to_list m)
  = match m !! p with Some _ => 1%nat | None => 0%nat end.
Proof.
  pose proof (fetches_NoDup p _ (NoDup_fst_map_to_list m)) as Hle.
  destruct (m !! p) as [n|] eqn:Hp.
  - apply elem_of_map_to_list in Hp.
    assert ((p, n) ∈ filter (λ c, c.1 = p) (map_to_list m)) as Hin
      by by apply list_elem_of_filter.
    unfold fetches in *.
    destruct (filter _ (map_to_list m));
      [by apply elem_of_nil in Hin|simpl in *; lia].
  - apply fetches_absent. intros Hin.
    apply list_elem_of_fmap in Hin as ([q n] & -> & Hin).
    apply elem_of_map_to_list in Hin. simpl in *. congruence.
Qed.

(** X7: with healthy providers and no context case taken, a valid request
    is served by the primary round alone: its fetches are the entries of
    the primary tally, so every provider bound to a slot is fetched exactly
    once and no other provider at all, and one select is executed per
    slot. *)
Theorem X7_healthy_single_round s userIP count offset :
  allHealthy s → 0 < count → 0 ≤ offset →
  ∃ requestConfigs items w',
    prepareConfigsForRequest s count offset = Done requestConfigs ∧
    GetContent s neverDone userIP count offset world0
    = (Done (items, None), w') ∧
    calls w' = map_to_list (primaryCounts requestConfigs) ∧
    waits w' = length requestConfigs ∧
    ∀ p, fetches p (calls w')
         = if decide (demand p requestConfigs = 0%nat) then 0%nat else 1%nat.
Proof.
  intros [Hne Hh] Hc Ho.
  destruct (prepareConfigsForRequest_spec s count offset Hne)
    as (rc & Hrc & Hlen & Hidx).
  destruct (primaryRound_healthy s neverDone userIP rc world0)
    as (pr & w1 & responses & w2 & Hd & Hf & Hall); [done| |].
  { intros cfg Hin. apply Hh. apply list_elem_of_lookup in Hin as [i Hi].
    pose proof (lookup_lt_Some _ _ _ Hi) as Hlt.
    rewrite Hidx in Hi by done. apply list_elem_of_lookup. eauto. }
  assert (getConfigResponses s neverDone userIP count offset world0
          = (Done (responses, None), w2)) as Hg.
  { unfold getConfigResponses.
    rewrite (bind_done _ _ world0 rc world0) by (unfold lift; by rewrite Hrc).
    rewrite (bind_done _ _ _ _ _ Hd), (bind_done _ _ _ _ _ Hf).
    rewrite fallbackCounts_all_ok.
    - rewrite decide_False; [done|]. rewrite map_size_empty. lia.
    - clear -Hall. induction Hall as [|cfg r rc rs [Hr _] _ IH]; simpl; [done|].
      constructor; done. }
  pose proof (firstPass_waits _ _ _ _ _ _ Hf) as Hw2.
  pose proof Hf as Hf'. apply firstPass_trace in Hf' as (Hc2 & _).
  pose proof Hd as Hd'.
  apply dispatch_log in Hd' as (Hw1 & pre & _ & Hc1 & Hpre).
  rewrite (Hpre pr eq_refl) in Hc1. change (calls world0) with
    (@nil (Provider * Z)) in Hc1. rewrite app_nil_l in Hc1.
  change (waits world0) with 0%nat in *.
  exists rc. rewrite GetContent_valid, (bind_done _ _ _ _ _ Hg) by done.
  simpl. unfold ret.
  assert (∀ p, fetches p (calls w2)
               = if decide (demand p rc = 0%nat) then 0%nat else 1%nat) as Hfetch.
  { intros p. rewrite Hc2, Hc1, fetches_map_to_list.
    pose proof (primaryCounts_spec rc p) as Ht. unfold tallied in Ht.
    rewrite Ht. by case_decide. }
  case_bool_decide; eexists _, _; (split; [done|]);
    (split; [done|]); (split; [congruence|]); (split; [lia|done]).
Qed.

Lemma X7_healthy_single_round_witness :
  ∃ requestConfigs items w',
    prepareConfigsForRequest (soloService (λ _, "id") 0) 2 1
    = Done requestConfigs ∧
    GetContent (soloService (λ _, "id") 0) neverDone "10.0.0.1" 2 1 world0
    = (Done (items, None), w') ∧
    calls w' = map_to_list (primaryCounts requestConfigs) ∧
    waits w' = length requestConfigs ∧
    ∀ p, fetches p (calls w')
         = if decide (demand p requestConfigs = 0%nat) then 0%nat else 1%nat.
Proof.
  apply (X7_healthy_single_round (soloService (λ _, "id") 0) "10.0.0.1" 2 1).
  - apply soloService_healthy.
  - lia.
  - lia.
Defined.

(** X10: a promise never holds more responses than the buffer of its
    channel, [count], so the fetch goroutine never blocks on a send; of a
    successful fetch exactly the first [count] items of the returned array
    are sent and the excess is dropped. *)
Theorem X10_promise_fits_buffer s userIP p count w q w' :
  0 < count →
  getPromiseForProvider s userIP p count w = (Done q, w') →
  Z.of_nat (length q) ≤ count ∧
  ∀ c, clients s !! p = Some c →
    (c (fetches p (calls w)) userIP count).2 = None →
    q = map (λ it, mkResp it None)
          (take (Z.to_nat count)
             (elems (c (fetches p (calls w)) userIP count).1 ++
              spare (c (fetches p (calls w)) userIP count).1)).
Proof.
  intros Hc H. unfold getPromiseForProvider, fetches in *.
  destruct (clients s !! p) as [c|]; [|done].
  case_bool_decide; [done|].
  destruct (c _ userIP count) as [items [e|]] eqn:Hfetch.
  - injection H as <- _. split; [simpl; lia|].
    intros c' Hc' He. injection Hc' as <-. rewrite Hfetch in He. done.
  - unfold reslice in H. case_bool_decide; [|done].
    injection H as <- _. split.
    + rewrite length_map, length_take. lia.
    + intros c' Hc' _. injection Hc' as <-. by rewrite Hfetch.
Qed.

Lemma X10_promise_fits_buffer_witness :
  Z.of_nat (length [mkResp (Some (mkItem "id" "test title" "1" 0)) None;
                    mkResp (Some (mkItem "id" "test title" "1" 0)) None]) ≤ 2 ∧
  ∀ c, clients (soloService (λ _, "id") 0) !! "1" = Some c →
    (c (fetches "1" (calls world0)) "10.0.0.1" 2).2 = None →
    [mkResp (Some (mkItem "id" "test title" "1" 0)) None;
     mkResp (Some (mkItem "id" "test title" "1" 0)) None]
    = map (λ it, mkResp it None)
        (take (Z.to_nat 2)
           (elems (c (fetches "1" (calls world0)) "10.0.0.1" 2).1 ++
            spare (c (fetches "1" (calls world0)) "10.0.0.1" 2).1)).
Proof.
  apply (X10_promise_fits_buffer (soloService (λ _, "id") 0) "10.0.0.1" "1" 2
           world0 _ (mkWorld [("1", 2)] 0)).
  - lia.
  - vm_compute. reflexivity.
Defined.

Lemma getConfigResponses_fired s ctxDone userIP count offset w responses e w' :
  getConfigResponses s ctxDone userIP count offset w
  = (Done (responses, Some (ErrCtx e)), w') →
  ∃ k, (waits w ≤ k < waits w')%nat ∧ ctxDone k = Some e.
Proof.
  unfold getConfigResponses. intros H.
  apply bind_inv in H as [(pn & _ & ?)|(rc & w0 & Hrc & H1)]; [done|].
  unfold lift in Hrc. injection Hrc as Hrc <-.
  apply bind_inv in H1 as [(pn & _ & ?)|(pr & w1 & Hd & H2)]; [done|].
  pose proof Hd as Hd'. apply dispatch_log in Hd' as (Hw1 & _).
  apply bind_inv in H2 as [(pn & _ & ?)|(r1 & w2 & Hf & H3)]; [done|].
  destruct r1 as [e1|rs].
  { unfold ret in H3. injection H3 as _ <- <-.
    apply firstPass_fired in Hf as [Hlt He].
    - exists (waits w2 - 1)%nat. split; [lia|done].
    - intros cfg Hin. apply (dispatch_covers _ _ _ _ _ _ _ _ Hd). left.
      apply list_elem_of_lookup in Hin as [i Hi].
      pose proof (demand_take_lt _ _ _ Hi) as Hpos.
      pose proof (primaryCounts_spec rc (Type_ cfg)) as Ht.
      unfold tallied in Ht. rewrite decide_False in Ht by lia.
      apply elem_of_map_to_list in Ht.
      apply list_elem_of_fmap. by eexists (_, _). }
  apply firstPass_trace in Hf as (_ & Hw2 & _).
  case_decide; [|unfold ret in H3; done].
  apply bind_inv in H3 as [(pn & _ & ?)|(pr2 & w3 & Hd2 & H4)]; [done|].
  pose proof Hd2 as Hd2'. apply dispatch_log in Hd2' as (Hw3 & _).
  apply bind_inv in H4 as [(pn & _ & ?)|(r2 & w4 & Hs & H5)]; [done|].
  destruct r2 as [e2|rs']; unfold ret in H5; [|done].
  injection H5 as _ <- <-.
  apply secondPass_fired in Hs as [Hlt He].
  - exists (waits w4 - 1)%nat. split; [lia|done].
  - intros i x f Hi Hbefore Hx.
    destruct (fallbackCounts_reached _ i x f Hi Hx Hbefore) as (n & Hn & _).
    apply (dispatch_covers _ _ _ _ _ _ _ _ Hd2). left.
    apply elem_of_map_to_list in Hn.
    apply list_elem_of_fmap. by eexists (_, _).
Qed.

(** X11: GetContent returns a context error only when a select of the
    request took the context case: every select reads a channel that has a
    promise, so no wait is lost on a channel that never delivers. *)
Theorem X11_ctx_error_only_when_fired s ctxDone userIP count offset w
    items e w' :
  GetContent s ctxDone userIP count offset w
  = (Done (items, Some (ErrCtx e)), w') →
  ∃ k, (waits w ≤ k < waits w')%nat ∧ ctxDone k = Some e.
Proof.
  intros H.
  destruct (decide (count ≤ 0 ∨ offset < 0)) as [Hbad|Hok].
  { rewrite GetContent_invalid in H by done. done. }
  rewrite GetContent_valid in H by lia.
  apply bind_inv in H as [(pn & _ & ?)|([responses e1] & w1 & Hg & Hret)];
    [done|].
  simpl in Hret. destruct e1 as [e1|].
  - unfold ret in Hret. injection Hret as _ -> <-.
    by eapply getConfigResponses_fired.
  - case_bool_decide; unfold ret in Hret; done.
Qed.

Lemma X11_ctx_error_only_when_fired_witness :
  ∃ k, (waits world0 ≤ k < 3)%nat ∧ deadlineAt 2 k = Some DeadlineExceeded.
Proof.
  apply (X11_ctx_error_only_when_fired (errorService (λ _, "id") 0)
           (deadlineAt 2) "10.0.0.1" 5 1 world0 []
           DeadlineExceeded (mkWorld [("5", 1); ("1", 2); ("2", 2); ("4", 1)] 3)).
  vm_compute. reflexivity.
Defined.


(** * Properties of the HTTP handler *)

Section HandlerProperties.

Variable ParseInt : string → option Z.
Variable ctxDone : nat → option ctxError.

Lemma getIntParam_outcome name required allowZero req v :
  (HTTP.getIntParam ParseInt name required allowZero req = (v, None) ↔
   (HTTP.Get (HTTP.Query req) name = "" ∧ required = false ∧ v = 0) ∨
   (HTTP.Get (HTTP.Query req) name ≠ "" ∧
    ParseInt (HTTP.Get (HTTP.Query req) name) = Some v ∧
    if allowZero then 0 ≤ v else 0 < v)) ∧
  (∀ e, HTTP.getIntParam ParseInt name required allowZero req = (v, Some e) →
        v = 0).
Proof.
  unfold HTTP.getIntParam. split; [split|].
  - intros H. case_decide as Hs.
    + left. destruct required; [done|]. by injection H as <-.
    + right. split; [done|].
      destruct (ParseInt _) as [v'|]; [|done].
      destruct allowZero; simpl in H; repeat case_bool_decide;
        try done; injection H as <-; split; (done || lia).
  - intros [(Hs & -> & ->)|(Hs & Hp & Hv)].
    + by rewrite decide_True.
    + rewrite decide_False, Hp by done.
      destruct allowZero; simpl; repeat case_bool_decide; (done || lia).
  - intros e H. case_decide.
    + destruct required; by injection H as <-.
    + destruct (ParseInt _) as [v'|]; [|by injection H as <-].
      destruct (_ && _); [by injection H as <-|].
      case_bool_decide; [by injection H as <-|done].
Qed.

(** X13: [getIntParam] succeeds in two ways only. A parameter that is
    absent or empty and not required reads as 0. A parameter that is
    present must be read by [ParseInt], and its value must be at least 1,
    or at least 0 when zero is allowed. On an error the value is 0. *)
Theorem X13_getIntParam_outcome name required allowZero req v :
  (HTTP.getIntParam ParseInt name required allowZero req = (v, None) ↔
   (HTTP.Get (HTTP.Query req) name = "" ∧ required = false ∧ v = 0) ∨
   (HTTP.Get (HTTP.Query req) name ≠ "" ∧
    ParseInt (HTTP.Get (HTTP.Query req) name) = Some v ∧
    if allowZero then 0 ≤ v else 0 < v)) ∧
  (∀ e, HTTP.getIntParam ParseInt name required allowZero req = (v, Some e) →
        v = 0).
Proof. apply getIntParam_outcome. Qed.

Lemma validateContentReq_ok req count offset :
  HTTP.validateContentReq ParseInt req = (count, offset, None) →
  0 < count ∧ 0 ≤ offset ∧
  ParseInt (HTTP.Get (HTTP.Query req) "count") = Some count ∧
  (HTTP.Get (HTTP.Query req) "offset" = "" ∧ offset = 0 ∨
   ParseInt (HTTP.Get (HTTP.Query req) "offset") = Some offset).
Proof.
  unfold HTTP.validateContentReq. intros H.
  destruct (HTTP.getIntParam ParseInt "count" true false req)
    as [c [e|]] eqn:Hcount; [done|].
  destruct (HTTP.getIntParam ParseInt "offset" false true req)
    as [o [e|]] eqn:Hoffset; [done|].
  injection H as -> ->.
  apply getIntParam_outcome in Hcount as [(_ & ? & _)|(_ & Hpc & Hc)];
    [done|].
  apply getIntParam_outcome in Hoffset as [(Hs & _ & ->)|(_ & Hpo & Ho)].
  - repeat split; try done. by left.
  - repeat split; try done. by right.
Qed.

(** X14: the parameters that [validateContentReq] accepts are those that
    the service accepts: [count] is the value read from the [count]
    parameter and is positive; [offset] is 0 when the parameter is absent
    or empty, else the value read from it, and is not negative. *)
Theorem X14_validated_params req count offset :
  HTTP.validateContentReq ParseInt req = (count, offset, None) →
  0 < count ∧ 0 ≤ offset ∧
  ParseInt (HTTP.Get (HTTP.Query req) "count") = Some count ∧
  (HTTP.Get (HTTP.Query req) "offset" = "" ∧ offset = 0 ∨
   ParseInt (HTTP.Get (HTTP.Query req) "offset") = Some offset).
Proof. apply validateContentReq_ok. Qed.

(** X15: what the handler answers. 404 for anything but [GET /] and 400
    for parameters it rejects, both without a fetch or a select. 500 with
    the fixed text, and no detail of the error, only when the service
    returned a context error: the validation of the service itself never
    fails behind the handler. 200 with exactly the items the service
    returned. *)
Theorem X15_handler_answers h req w resp w' :
  HTTP.ServeHTTP ParseInt ctxDone h req w = (Done resp, w') →
  (resp = HTTP.mkResponse 404 (HTTP.Text "Not found") ∧ w' = w ∧
   (HTTP.Method req ≠ "GET" ∨ HTTP.Path req ≠ "/")) ∨
  (HTTP.Method req = "GET" ∧ HTTP.Path req = "/" ∧
   ((∃ e, resp = HTTP.mkResponse 400 (HTTP.Text e) ∧ w' = w ∧
          (HTTP.validateContentReq ParseInt req).2 = Some e) ∨
    (∃ count offset,
       HTTP.validateContentReq ParseInt req = (count, offset, None) ∧
       0 < count ∧ 0 ≤ offset ∧
       ((∃ ce,
           GetContent (HTTP.service h) ctxDone (HTTP.getIP req) count offset w
           = (Done ([], Some (ErrCtx ce)), w') ∧
           resp = HTTP.mkResponse 500 (HTTP.Text "internal server error")) ∨
        (∃ items,
           GetContent (HTTP.service h) ctxDone (HTTP.getIP req) count offset w
           = (Done (items, None), w') ∧
           resp = HTTP.mkResponse 200 (HTTP.Json items)))))).
Proof.
  unfold HTTP.ServeHTTP, HTTP.MethodGet. intros H.
  case_decide as Hroute.
  { unfold ret in H. injection H as <- <-. by left. }
  right.
  assert (HTTP.Method req = "GET" ∧ HTTP.Path req = "/") as [Hm Hp].
  { split.
    - destruct (decide (HTTP.Method req = "GET")); [done|].
      exfalso. apply Hroute. by left.
    - destruct (decide (HTTP.Path req = "/")); [done|].
      exfalso. apply Hroute. by right. }
  do 2 (split; [done|]).
  unfold HTTP.GetContent in H.
  destruct (HTTP.validateContentReq ParseInt req) as [[count offset] [e|]]
    eqn:Hv.
  { unfold ret in H. injection H as <- <-. left. by exists e. }
  right. exists count, offset. split; [done|].
  destruct (validateContentReq_ok _ _ _ Hv) as (Hc & Ho & _).
  do 2 (split; [done|]).
  apply bind_inv in H as [(pn & _ & ?)|([items e] & w1 & Hg & Hret)]; [done|].
  simpl in Hret. destruct e as [e|]; unfold ret in Hret;
    injection Hret as <- <-.
  - left. pose proof Hg as Hg'.
    apply GetContent_trace in Hg' as (_ & -> & [(_ & Hbad & _)|Hctx]); [lia|].
    destruct Hctx as (_ & _ & ce & -> & _). by exists ce.
  - right. by exists items.
Qed.

End HandlerProperties.

Lemma X13_getIntParam_outcome_witness :
  (HTTP.getIntParam readInt64 "offset" false true
     (getRoot (<["count" := ["3"]]> ∅)) = (0, None) ↔
   (HTTP.Get (HTTP.Query (getRoot (<["count" := ["3"]]> ∅))) "offset" = "" ∧
    false = false ∧ 0 = 0) ∨
   (HTTP.Get (HTTP.Query (getRoot (<["count" := ["3"]]> ∅))) "offset" ≠ "" ∧
    readInt64 (HTTP.Get (HTTP.Query (getRoot (<["count" := ["3"]]> ∅)))
                 "offset") = Some 0 ∧
    0 ≤ 0)) ∧
  (∀ e, HTTP.getIntParam readInt64 "offset" false true
          (getRoot (<["count" := ["3"]]> ∅)) = (0, Some e) →
        0 = 0).
Proof.
  exact (X13_getIntParam_outcome readInt64 "offset" false true
           (getRoot (<["count" := ["3"]]> ∅)) 0).
Defined.

Lemma X14_validated_params_witness :
  0 < 3 ∧ 0 ≤ 1 ∧
  readInt64 (HTTP.Get (HTTP.Query
               (getRoot (<["count" := ["3"]]> (<["offset" := ["1"]]> ∅))))
               "count") = Some 3 ∧
  (HTTP.Get (HTTP.Query
      (getRoot (<["count" := ["3"]]> (<["offset" := ["1"]]> ∅)))) "offset" = ""
   ∧ 1 = 0 ∨
   readInt64 (HTTP.Get (HTTP.Query
                (getRoot (<["count" := ["3"]]> (<["offset" := ["1"]]> ∅))))
                "offset") = Some 1).
Proof.
  apply (X14_validated_params readInt64
           (getRoot (<["count" := ["3"]]> (<["offset" := ["1"]]> ∅))) 3 1).
  vm_compute. reflexivity.
Defined.

(** X16: [getIP] returns the text of the peer address before its first
    colon: it holds no colon, the address is that text followed by nothing
    or by a colon and a rest, and an address without colon is returned
    whole. *)
Theorem X16_getIP_before_colon (req : HTTP.Request) :
  (":"%char ∉ String.list_ascii_of_string (HTTP.getIP req)) ∧
  (HTTP.RemoteAddr req = HTTP.getIP req ∨
   ∃ rest,
     HTTP.RemoteAddr req
     = (HTTP.getIP req ++ String ":"%char rest)%string).
Proof.
  unfold HTTP.getIP. induction (HTTP.RemoteAddr req) as [|c v [IH1 IH2]];
    simpl.
  - split; [apply not_elem_of_nil|by left].
  - destruct (Ascii.eqb c ":") eqn:Hc.
    + apply Ascii.eqb_eq in Hc as ->. simpl.
      split; [apply not_elem_of_nil|]. right. by exists v.
    + apply Ascii.eqb_neq in Hc. simpl. split.
      * apply not_elem_of_cons. split; [congruence|done].
      * destruct IH2 as [IH2|[rest IH2]].
        -- left. f_equal. exact IH2.
        -- right. exists rest. rewrite IH2 at 1. reflexivity.
Qed.

Lemma X15_handler_answers_witness :
  (HTTP.mkResponse 200 (HTTP.Json [Some (mkItem "id" "test title" "2" 0)])
   = HTTP.mkResponse 404 (HTTP.Text "Not found") ∧
   mkWorld [("5", 1); ("1", 1); ("2", 1); ("4", 1); ("3", 1)] 5 = world0 ∧
   (HTTP.Method (getRoot sampleQuery) ≠ "GET" ∨
    HTTP.Path (getRoot sampleQuery) ≠ "/")) ∨
  (HTTP.Method (getRoot sampleQuery) = "GET" ∧
   HTTP.Path (getRoot sampleQuery) = "/" ∧
   ((∃ e,
       HTTP.mkResponse 200 (HTTP.Json [Some (mkItem "id" "test title" "2" 0)])
       = HTTP.mkResponse 400 (HTTP.Text e) ∧
       mkWorld [("5", 1); ("1", 1); ("2", 1); ("4", 1); ("3", 1)] 5 = world0 ∧
       (HTTP.validateContentReq readInt64 (getRoot sampleQuery)).2 = Some e) ∨
    (∃ count offset,
       HTTP.validateContentReq readInt64 (getRoot sampleQuery)
       = (count, offset, None) ∧
       0 < count ∧ 0 ≤ offset ∧
       ((∃ ce,
           GetContent (HTTP.service sampleHandler) neverDone
             (HTTP.getIP (getRoot sampleQuery)) count offset world0
           = (Done ([], Some (ErrCtx ce)),
              mkWorld [("5", 1); ("1", 1); ("2", 1); ("4", 1); ("3", 1)] 5) ∧
           HTTP.mkResponse 200
             (HTTP.Json [Some (mkItem "id" "test title" "2" 0)])
           = HTTP.mkResponse 500 (HTTP.Text "internal server error")) ∨
        (∃ items,
           GetContent (HTTP.service sampleHandler) neverDone
             (HTTP.getIP (getRoot sampleQuery)) count offset world0
           = (Done (items, None),
              mkWorld [("5", 1); ("1", 1); ("2", 1); ("4", 1); ("3", 1)] 5) ∧
           HTTP.mkResponse 200
             (HTTP.Json [Some (mkItem "id" "test title" "2" 0)])
           = HTTP.mkResponse 200 (HTTP.Json items)))))).
Proof.
  apply (X15_handler_answers readInt64 neverDone sampleHandler
           (getRoot sampleQuery) world0).
  vm_compute. reflexivity.
Defined.
